(** * SankoTools, tools/takeSnapshot.js: the holder-snapshot engine

    A shallow embedding of the snapshot tool: the three balance ledgers
    (ERC-20, ERC-721, ERC-1155), the windowed event fetcher, the
    deployment-block scan, the merge of a fresh computation into the
    previous snapshot, the sort and the decimal formatting of balances.

    Conventions.
    - A JavaScript object used as a map is an insertion-ordered association
      list ([Obj]): [Object.entries] order decides the order in which the
      snapshot is written and how the stable sort breaks ties.
    - A [BigInt] is a [Z]; a [Number] that holds an integer is a [Z] too,
      tagged by the constructor that carries it.
    - Strings are [string]; addresses are the strings ethers hands out.
    - The chain, the file system and the RPC answers are fields of one
      environment record, read-only during a run. *)

From Stdlib Require Import List String Ascii ZArith QArith Bool Lia.
From Stdlib Require Import Permutation Sorted DecimalString DecimalZ.
From Equations Require Import Equations.
Import ListNotations.

#[local] Open Scope string_scope.
#[local] Open Scope Z_scope.

(** ** JavaScript objects as insertion-ordered maps *)

Module Obj.
Section Ops.
Context {K V : Type} (eq_dec : forall x y : K, {x = y} + {x <> y}).

Definition t := list (K * V).

(** [o[k]], [None] standing for [undefined]. *)
Fixpoint get (o : t) (k : K) : option V :=
  match o with
  | [] => None
  | (k', v) :: r => if eq_dec k k' then Some v else get r k
  end.

(** [o[k] = v]: an existing key keeps its place, a new one goes last. *)
Fixpoint set (o : t) (k : K) (v : V) : t :=
  match o with
  | [] => [(k, v)]
  | (k', v') :: r =>
      if eq_dec k k' then (k, v) :: r else (k', v') :: set r k v
  end.

(** [delete o[k]]. *)
Fixpoint delete (o : t) (k : K) : t :=
  match o with
  | [] => []
  | (k', v') :: r =>
      if eq_dec k k' then delete r k else (k', v') :: delete r k
  end.

Definition keys (o : t) : list K := map fst o.
Definition values (o : t) : list V := map snd o.
Definition has (o : t) (k : K) : bool :=
  match get o k with Some _ => true | None => false end.
End Ops.
End Obj.

(** ** Addresses, amounts, events *)

Definition address := string.

(** [ethers.ZeroAddress]. *)
Definition ZeroAddress : address :=
  "0x0000000000000000000000000000000000000000".

Definition isZeroAddress (a : address) : bool := String.eqb a ZeroAddress.

(** A numeric value as the ledgers return it. *)
Inductive amount :=
| BigIntV (z : Z)
| NumberV (n : Z).

Inductive EventName := EvTransfer | EvTransferSingle | EvTransferBatch.

Definition EventName_eqb (a b : EventName) : bool :=
  match a, b with
  | EvTransfer, EvTransfer => true
  | EvTransferSingle, EvTransferSingle => true
  | EvTransferBatch, EvTransferBatch => true
  | _, _ => false
  end.

Inductive ContractType := ERC20 | ERC721 | ERC1155.

(** ** Truthiness and defaults of optional BigInt / Number slots *)

(** [!x] for a slot holding [undefined], a BigInt or a Number: falsy when
    absent or zero. *)
Definition falsy (x : option Z) : bool :=
  match x with
  | None => true
  | Some z => z =? 0
  end.

(** The value read back from a slot that the line before made sure is
    there. *)
Definition orZero (x : option Z) : Z :=
  match x with Some z => z | None => 0 end.

(** ** BigInt printing and parsing *)

(** [bigIntValue.toString()]. *)
Definition BigInt_toString (z : Z) : string :=
  NilZero.string_of_int (Z.to_int z).

(** [BigInt(s)] on a string, [None] for the [SyntaxError].  The model
    covers the empty string and signed decimal literals; white space and
    the 0x/0o/0b literals that [BigInt] also accepts cannot be built from
    the characters of a balance (digits, the sign and the point). *)
Definition BigInt_of_string (s : string) : option Z :=
  match s with
  | EmptyString => Some 0
  | String c r =>
      if Ascii.eqb c "-"
      then option_map (fun u => Z.opp (Z.of_uint u)) (NilZero.uint_of_string r)
      else if Ascii.eqb c "+"
      then option_map Z.of_uint (NilZero.uint_of_string r)
      else option_map Z.of_uint (NilZero.uint_of_string s)
    end.

(** [s.padStart(n, '0')]. *)
Fixpoint zeros (n : nat) : string :=
  match n with
  | O => EmptyString
  | S m => String "0" (zeros m)
  end.

Definition padStart (n : nat) (s : string) : string :=
  zeros (n - String.length s) ++ s.

(** The first [n] characters, and what is left after them. *)
Fixpoint take (n : nat) (s : string) : string :=
  match n, s with
  | S m, String c r => String c (take m r)
  | _, _ => EmptyString
  end.

Fixpoint drop (n : nat) (s : string) : string :=
  match n, s with
  | S m, String _ r => drop m r
  | _, _ => s
  end.

(** [s.slice(0, -k)] and [s.slice(-k)] for [k > 0]. *)
Definition sliceButLast (k : nat) (s : string) : string :=
  take (String.length s - k) s.

Definition sliceLast (k : nat) (s : string) : string :=
  drop (String.length s - k) s.

(** [formatBigIntToDecimal] (takeSnapshot.js:134-140). *)
Definition formatBigIntToDecimal (bigIntValue : Z) : string :=
  let strValue := BigInt_toString bigIntValue in
  let paddedValue := padStart 19 strValue in
  let integerPart := sliceButLast 18 paddedValue in
  let decimalPart := sliceLast 18 paddedValue in
  integerPart ++ "." ++ decimalPart.

(** [s.replace('.', '')]: the first point goes, the rest stays. *)
Fixpoint replaceDot (s : string) : string :=
  match s with
  | EmptyString => EmptyString
  | String c r => if Ascii.eqb c "." then r else String c (replaceDot r)
  end.

(** ** Stable sorting

    [Array.prototype.sort] is stable and, for a consistent comparator,
    its result is determined by the comparator alone; insertion from the
    right is one such sort.  [before a b] says that the comparator puts
    [a] strictly before [b] (it returns a negative number). *)

Section StableSort.
Context {A : Type} (before : A -> A -> bool).

Fixpoint insertSorted (x : A) (l : list A) : list A :=
  match l with
  | [] => [x]
  | y :: r => if before y x then y :: insertSorted x r else x :: y :: r
  end.

Definition stableSort (l : list A) : list A :=
  fold_right insertSorted [] l.

(** [x] may stand before [y]: the comparator does not put [y] first. *)
Definition mayPrecede (x y : A) : Prop := before y x = false.
End StableSort.

(** Own-property order of an object whose keys are decimal numerals:
    array indices (below 2^32 - 1) ascending first, the other keys after
    them in insertion order. *)
Definition isArrayIndex (k : Z) : bool := (0 <=? k) && (k <? 2 ^ 32 - 1).

Definition ownEntries {V : Type} (o : Obj.t (K := Z) (V := V)) : list (Z * V) :=
  (stableSort (fun a b => fst a <? fst b)
     (filter (fun e => isArrayIndex (fst e)) o)
   ++ filter (fun e => negb (isArrayIndex (fst e))) o)%list.

(** ** Event arguments

    The arguments the events carry.  [t_value] is the
    third argument of [Transfer]: the [value] of an ERC-20 transfer, the
    [tokenId] of an ERC-721 one. *)

Record TransferArgs := mkTransfer
  { t_from : address; t_to : address; t_value : Z }.

Record TransferSingleArgs := mkSingle
  { s_from : address; s_to : address; s_id : Z; s_value : Z }.

Record TransferBatchArgs := mkBatch
  { b_from : address; b_to : address; b_ids : list Z; b_values : list Z }.

(** ** The fungible ledger: [getERC20Holders] (takeSnapshot.js:149-165) *)

Definition balancesOf := Obj.t (K := address) (V := Z).

Definition debit (balances : balancesOf) (who : address) (v : Z) : balancesOf :=
  let balances :=
    if falsy (Obj.get string_dec balances who)
    then Obj.set string_dec balances who 0 else balances in
  Obj.set string_dec balances who
    (orZero (Obj.get string_dec balances who) - v).

Definition credit (balances : balancesOf) (who : address) (v : Z) : balancesOf :=
  let balances :=
    if falsy (Obj.get string_dec balances who)
    then Obj.set string_dec balances who 0 else balances in
  Obj.set string_dec balances who
    (orZero (Obj.get string_dec balances who) + v).

Definition applyTransfer (balances : balancesOf) (event : TransferArgs)
  : balancesOf :=
  let balances :=
    if isZeroAddress (t_from event) then balances
    else debit balances (t_from event) (t_value event) in
  if isZeroAddress (t_to event) then balances
  else credit balances (t_to event) (t_value event).

Definition getERC20Holders (transferEvents : list TransferArgs) : balancesOf :=
  fold_left applyTransfer transferEvents [].

(** What an event takes from and gives to an address. *)
Definition outflow (a : address) (ev : TransferArgs) : Z :=
  if negb (isZeroAddress (t_from ev)) && String.eqb a (t_from ev)
  then t_value ev else 0.

Definition inflow (a : address) (ev : TransferArgs) : Z :=
  if negb (isZeroAddress (t_to ev)) && String.eqb a (t_to ev)
  then t_value ev else 0.

Definition touches (a : address) (ev : TransferArgs) : bool :=
  negb (isZeroAddress (t_from ev)) && String.eqb a (t_from ev)
  || negb (isZeroAddress (t_to ev)) && String.eqb a (t_to ev).

Definition netFlow (a : address) (l : list TransferArgs) : Z :=
  fold_right (fun ev acc => inflow a ev - outflow a ev + acc) 0 l.

(** ** The single-owner ledger: [getERC721Holders] (takeSnapshot.js:175-190) *)

Definition ownersOf := Obj.t (K := Z) (V := address).

Definition applyOwnership (tokenOwners : ownersOf) (event : TransferArgs)
  : ownersOf :=
  let tokenOwners :=
    if isZeroAddress (t_from event) then tokenOwners
    else Obj.delete Z.eq_dec tokenOwners (t_value event) in
  if isZeroAddress (t_to event) then tokenOwners
  else Obj.set Z.eq_dec tokenOwners (t_value event) (t_to event).

Definition tokenOwnersOf (transferEvents : list TransferArgs) : ownersOf :=
  fold_left applyOwnership transferEvents [].

Definition countOwner (holderCounts : balancesOf) (owner : address)
  : balancesOf :=
  let holderCounts :=
    if falsy (Obj.get string_dec holderCounts owner)
    then Obj.set string_dec holderCounts owner 0 else holderCounts in
  Obj.set string_dec holderCounts owner
    (orZero (Obj.get string_dec holderCounts owner) + 1).

Definition getERC721Holders (transferEvents : list TransferArgs) : balancesOf :=
  fold_left countOwner (map snd (ownEntries (tokenOwnersOf transferEvents))) [].

(** ** The multi-token ledger: [getERC1155Holders] (takeSnapshot.js:203-248) *)

Definition idBalances := Obj.t (K := Z) (V := Z).
Definition balances1155 := Obj.t (K := address) (V := idBalances).

Definition orEmpty (x : option idBalances) : idBalances :=
  match x with Some o => o | None => [] end.

(** The three statements of one side of a transfer; an object is always
    truthy, so the first test only asks whether the address is there. *)
Definition move1155 (sign : Z) (balances : balances1155) (who : address)
    (id valueBigInt : Z) : balances1155 :=
  let balances :=
    match Obj.get string_dec balances who with
    | None => Obj.set string_dec balances who []
    | Some _ => balances
    end in
  let inner := orEmpty (Obj.get string_dec balances who) in
  let inner :=
    if falsy (Obj.get Z.eq_dec inner id)
    then Obj.set Z.eq_dec inner id 0 else inner in
  let inner :=
    Obj.set Z.eq_dec inner id
      (orZero (Obj.get Z.eq_dec inner id) + sign * valueBigInt) in
  Obj.set string_dec balances who inner.

Definition transferOne (balances : balances1155) (from to : address)
    (id valueBigInt : Z) : balances1155 :=
  let balances :=
    if isZeroAddress from then balances
    else move1155 (-1) balances from id valueBigInt in
  if isZeroAddress to then balances
  else move1155 1 balances to id valueBigInt.

Definition applySingle (balances : balances1155) (event : TransferSingleArgs)
  : balances1155 :=
  transferOne balances (s_from event) (s_to event) (s_id event) (s_value event).

(** [const { from, to, ids, values } = event.args] (line 222).
    [event.args] is an ethers [Result]: an array behind a proxy that
    answers a name with the array method of that name when there is one,
    and looks for an event argument of that name only otherwise.  [from],
    [to] and [ids] name no array method and give the arguments of the
    event.  [values] names [Array.prototype.values]: the binding [values]
    is that function, [values[index]] is [undefined] at every index, and
    the values the event carries are not read. *)
Definition valuesAt (event : TransferBatchArgs) (index : nat) : option Z :=
  None.

(** [ids.forEach((id, index) => ...)]: [values[index].toString()] throws on
    [undefined]; [None] is that [TypeError]. *)
Fixpoint applyBatchFrom (balances : balances1155) (from to : address)
    (values : nat -> option Z) (ids : list Z) (index : nat)
  : option balances1155 :=
  match ids with
  | [] => Some balances
  | id :: ids' =>
      match values index with
      | None => None
      | Some valueBigInt =>
          applyBatchFrom (transferOne balances from to id valueBigInt)
            from to values ids' (S index)
      end
  end.

Definition applyBatch (balances : option balances1155)
    (event : TransferBatchArgs) : option balances1155 :=
  match balances with
  | None => None
  | Some balances =>
      applyBatchFrom balances (b_from event) (b_to event)
        (valuesAt event) (b_ids event) 0
  end.

Definition sumId (holders : balancesOf) (address : address) (entry : Z * Z)
  : balancesOf :=
  let holders :=
    if falsy (Obj.get string_dec holders address)
    then Obj.set string_dec holders address 0 else holders in
  Obj.set string_dec holders address
    (orZero (Obj.get string_dec holders address) + snd entry).

Definition sumAddress (holders : balancesOf) (entry : address * idBalances)
  : balancesOf :=
  fold_left (fun h e => sumId h (fst entry) e) (ownEntries (snd entry)) holders.

Definition holdersOfBalances (balances : balances1155) : balancesOf :=
  fold_left sumAddress balances [].

Definition balances1155Of (singleTransferEvents : list TransferSingleArgs)
    (batchTransferEvents : list TransferBatchArgs) : option balances1155 :=
  fold_left applyBatch batchTransferEvents
    (Some (fold_left applySingle singleTransferEvents [])).

Definition getERC1155Holders (singleTransferEvents : list TransferSingleArgs)
    (batchTransferEvents : list TransferBatchArgs) : option balancesOf :=
  option_map holdersOfBalances
    (balances1155Of singleTransferEvents batchTransferEvents).

(** ** Persisted balances *)

(** A balance as the snapshot file holds it: a decimal string for a
    fungible token, a JSON number for the other two kinds. *)
Inductive balance :=
| StrB (s : string)
| NumB (n : Z).

(** [Number(b)] on a BigInt: the nearest double, ties to even.  Doubles
    that are integers are kept as integers; the overflow to [Infinity]
    from 2^1024 on is outside the model. *)
Definition roundHalfEven (a d : Z) : Z :=
  let q := a / d in
  let r := a mod d in
  if 2 * r <? d then q
  else if d <? 2 * r then q + 1
  else if Z.even q then q else q + 1.

Definition Number_of_BigInt (z : Z) : Z :=
  let a := Z.abs z in
  if a <? 2 ^ 53 then z
  else
    let e := Z.log2 a - 52 in
    Z.sgn z * (roundHalfEven a (2 ^ e) * 2 ^ e).

Definition Number (v : amount) : Z :=
  match v with
  | BigIntV z => Number_of_BigInt z
  | NumberV n => n
  end.

(** [balance !== 0n]: a Number is never strictly equal to a BigInt. *)
Definition strictNeqZeroBig (v : amount) : bool :=
  match v with
  | BigIntV z => negb (z =? 0)
  | NumberV _ => true
  end.

(** The integer a ledger value stands for. *)
Definition intOf (v : amount) : Z :=
  match v with BigIntV z => z | NumberV n => n end.

(** The two branches on [contractType === 'ERC20'] (lines 408-412 and
    429-433). *)
Definition formatHolder (contractType : ContractType) (v : amount) : balance :=
  match contractType with
  | ERC20 => StrB (formatBigIntToDecimal (intOf v))
  | _ => NumB (Number v)
  end.

(** [String(n)] and [n.toString()] on a Number that holds the integer
    [n], below 1e21 in absolute value.  The digits printed are those of the
    shortest [s] such that [s] followed by zeros reads back as the same
    Number, and of the numeral closest to [n] when two such [s] have the
    same length (the even one at equal distance).  [shortestFrom x e]
    looks for that numeral among the multiples of [10^e] next to [x], from
    [e] trailing zeros down: the first pair in which one reads back as [x]
    has the fewest digits.  Below 2^53 every integer is a Number of its
    own and the numeral is [x] itself; from there on it need not be. *)
Fixpoint shortestFrom (x : Z) (e : nat) : Z :=
  match e with
  | O => x
  | S e' =>
      let p := 10 ^ Z.of_nat e in
      let lo := x / p * p in
      let hi := lo + p in
      let okLo := Number_of_BigInt lo =? x in
      let okHi := Number_of_BigInt hi =? x in
      if okLo && okHi
      then if x - lo <? hi - x then lo
           else if hi - x <? x - lo then hi
           else if Z.even (x / p) then lo else hi
      else if okLo then lo
      else if okHi then hi
      else shortestFrom x e'
  end.

Definition shortestRoundTrip (n : Z) : Z :=
  Z.sgn n * shortestFrom (Z.abs n) 20.

Definition Number_toString (n : Z) : string :=
  BigInt_toString (shortestRoundTrip n).

(** [BigInt(String(balance).replace('.', ''))] (line 349).  From 1e21 on
    a Number prints in exponent notation ("1e+21"), which [BigInt]
    rejects. *)
Definition loadBalance (b : balance) : option Z :=
  match b with
  | StrB s => BigInt_of_string (replaceDot s)
  | NumB n =>
      if Z.abs n <? 10 ^ 21
      then BigInt_of_string (replaceDot (Number_toString n))
      else None
  end.

(** [data.holders.reduce(...)] (lines 348-351); [None] when one
    [BigInt(...)] throws. *)
Definition loadHolder (acc : option balancesOf) (entry : address * balance)
  : option balancesOf :=
  match acc with
  | None => None
  | Some acc =>
      match loadBalance (snd entry) with
      | None => None
      | Some z => Some (Obj.set string_dec acc (fst entry) z)
      end
  end.

Definition loadHolders (holders : list (address * balance)) : option balancesOf :=
  fold_left loadHolder holders (Some []).

Definition holdersObj := Obj.t (K := address) (V := balance).

(** Lines 407-413: every loaded balance is formatted in place. *)
Definition formatExisting (contractType : ContractType)
    (existingHolders : balancesOf) : holdersObj :=
  map (fun e => (fst e, formatHolder contractType (BigIntV (snd e))))
    existingHolders.

(** ** The merge (takeSnapshot.js:424-437) *)

Section Merge.
Variable contractType : ContractType.
Variable isContract : address -> bool.

Definition mergeHolder (existingHolders : holdersObj)
    (entry : address * amount) : holdersObj :=
  let (holder, balance) := entry in
  if strictNeqZeroBig balance && negb (isContract holder)
  then Obj.set string_dec existingHolders holder
         (formatHolder contractType balance)
  else Obj.delete string_dec existingHolders holder.

Definition mergeHolders (existingHolders : holdersObj)
    (holders : list (address * amount)) : holdersObj :=
  fold_left mergeHolder holders existingHolders.

(** What the merge decides for one address of the fresh computation. *)
Definition merged (holder : address) (fresh : amount) : option balance :=
  if strictNeqZeroBig fresh && negb (isContract holder)
  then Some (formatHolder contractType fresh)
  else None.
End Merge.

(** ** The sort (takeSnapshot.js:440)

    [parseFloat] is the runtime's; it is a parameter, read as the rational
    a finite double is. *)

Section Sort.
Variable parseFloat : balance -> Q.

(** [([, a], [, b]) => parseFloat(b) - parseFloat(a)] *)
Definition compareHolders (x y : address * balance) : Q :=
  (parseFloat (snd y) - parseFloat (snd x))%Q.

Definition holderBefore (x y : address * balance) : bool :=
  match (compareHolders x y ?= 0)%Q with
  | Lt => true
  | _ => false
  end.

Definition sortHolders (existingHolders : holdersObj)
  : list (address * balance) :=
  stableSort holderBefore existingHolders.

(** Lines 424-440 together: merge, then sort. *)
Definition mergeAndSort (contractType : ContractType)
    (isContract : address -> bool) (existingHolders : holdersObj)
    (holders : list (address * amount)) : list (address * balance) :=
  sortHolders (mergeHolders contractType isContract existingHolders holders).
End Sort.

(** ** The snapshot file and the world a run sees *)

Record Snapshot := mkSnapshot
  { holders : list (address * balance);
    lastCheckedBlock : Z;
    (** [None] for [null] and for a missing key, both falsy when read. *)
    deploymentBlock : option Z;
    symbol : string }.

Inductive Log :=
| LogTransfer (args : TransferArgs)
| LogTransferSingle (args : TransferSingleArgs)
| LogTransferBatch (args : TransferBatchArgs).

Definition eventNameOf (l : Log) : EventName :=
  match l with
  | LogTransfer _ => EvTransfer
  | LogTransferSingle _ => EvTransferSingle
  | LogTransferBatch _ => EvTransferBatch
  end.

Record Env := mkEnv
  { (** [argv.block], 0 when not given *)
    startingBlock : Z;
    (** [argv.refresh] *)
    refreshData : bool;
    (** [getTokenInfo]: the symbol, or [None] for [false] *)
    tokenSymbol : option string;
    (** the parsed snapshot file, when it exists *)
    snapshotFile : option Snapshot;
    (** [checkBlockForDeployment contractAddress] *)
    deployedIn : Z -> bool;
    (** [provider.getBlockNumber()], the same all through the run *)
    latestBlockNumber : Z;
    (** [detectContractType], [None] for [false] *)
    detectedType : option ContractType;
    (** the contract's logs with their block numbers, in chain order *)
    chainLogs : list (Z * Log);
    (** [provider.getCode(address) !== '0x'] *)
    isContract : address -> bool }.

(** ** DeploymentBlockLocator (takeSnapshot.js:78-108) *)

(** The [for] loop of [getDeploymentBlock]; [n] is the number of blocks
    left up to the latest one. *)
Fixpoint scanBlocks (deployed : Z -> bool) (n : nat) (blockNumber : Z)
  : option Z :=
  match n with
  | O => None
  | S m =>
      if deployed blockNumber then Some blockNumber
      else scanBlocks deployed m (blockNumber + 1)
  end.

Definition getDeploymentBlock (env : Env) : option Z :=
  scanBlocks (deployedIn env)
    (Z.to_nat (latestBlockNumber env - startingBlock env + 1))
    (startingBlock env).

Definition verifyDeploymentBlock (env : Env) (deploymentBlock : Z) : bool :=
  deployedIn env deploymentBlock.

Definition getCurrentBlock (env : Env) : Z := latestBlockNumber env.

(** ** EventLogFetcher (takeSnapshot.js:116-132) *)

Definition batchSize : Z := 1000.

(** The windows [(i, endBlock)] of the loop
    [for (let i = fromBlock; i <= toBlock; i += batchSize)]. *)
Equations? windowsFrom (i toBlock : Z) : list (Z * Z)
  by wf (Z.to_nat (toBlock - i + 1)) lt :=
  windowsFrom i toBlock with Z_le_dec i toBlock => {
    | left _ := (i, Z.min (i + batchSize - 1) toBlock)
                  :: windowsFrom (i + batchSize) toBlock;
    | right _ := [] }.
Proof. unfold batchSize. lia. Qed.

(** [contract.queryFilter(eventName, i, endBlock)]: the logs of that name
    in the blocks [i..endBlock], both ends included. *)
Definition queryFilter (env : Env) (eventName : EventName) (w : Z * Z)
  : list Log :=
  map snd
    (filter (fun bl => (fst w <=? fst bl) && (fst bl <=? snd w)
                       && EventName_eqb (eventNameOf (snd bl)) eventName)
       (chainLogs env)).

(** A start block that is [null] (a scan that found nothing) counts as 0
    in [i <= toBlock] and [i + batchSize - 1], and ethers reads a [null]
    first argument of [queryFilter] as block 0. *)
Definition toNumber (b : option Z) : Z :=
  match b with Some z => z | None => 0 end.

Definition getPastEvents (env : Env) (eventName : EventName)
    (fromBlock : option Z) (toBlock : Z) : list Log :=
  flat_map (queryFilter env eventName) (windowsFrom (toNumber fromBlock) toBlock).

(** The queries [getPastEvents] sends, for the record of a run. *)
Definition queriesOf (eventName : EventName) (fromBlock : option Z)
    (toBlock : Z) : list (EventName * (Z * Z)) :=
  map (fun w => (eventName, w)) (windowsFrom (toNumber fromBlock) toBlock).

Definition transfersOf (logs : list Log) : list TransferArgs :=
  flat_map (fun l => match l with LogTransfer a => [a] | _ => [] end) logs.

Definition singlesOf (logs : list Log) : list TransferSingleArgs :=
  flat_map (fun l => match l with LogTransferSingle a => [a] | _ => [] end) logs.

Definition batchesOf (logs : list Log) : list TransferBatchArgs :=
  flat_map (fun l => match l with LogTransferBatch a => [a] | _ => [] end) logs.

(** ** [main] (takeSnapshot.js:332-470) *)

Inductive Outcome :=
| ReturnedFalse                  (** no token info (line 335) *)
| Rejected                       (** an exception before the [try] block *)
| Exit1                          (** an error caught at line 462 *)
| Exit0 (written : Snapshot).    (** the snapshot was written *)

Record Run := mkRun
  { queried : list (EventName * (Z * Z));
    outcome : Outcome }.

(** What lines 341-372 leave in [existingHolders], [fromBlock] and
    [contractDeploymentBlock]; [None] when loading the file throws. *)
Definition resolveStart (env : Env)
  : option (balancesOf * option Z * option Z) :=
  match snapshotFile env with
  | Some data =>
      match loadHolders (holders data) with
      | None => None
      | Some existingHolders =>
          match deploymentBlock data with
          | Some d =>
              if d =? 0 then Some (existingHolders, Some (startingBlock env), None)
              else if verifyDeploymentBlock env d
              then Some (existingHolders,
                         Some (if refreshData env then d
                               else lastCheckedBlock data),
                         Some d)
              else Some (existingHolders, Some (startingBlock env),
                         getDeploymentBlock env)
          | None => Some (existingHolders, Some (startingBlock env), None)
          end
      end
  | None =>
      let contractDeploymentBlock := getDeploymentBlock env in
      Some ([], contractDeploymentBlock, contractDeploymentBlock)
  end.

(** The [switch] of lines 393-403: the events fetched and the ledger run
    on them; [None] when the ledger throws. *)
Definition ledgerQueries (contractType : ContractType) (fromBlock : option Z)
    (currentBlock : Z) : list (EventName * (Z * Z)) :=
  match contractType with
  | ERC20 | ERC721 => queriesOf EvTransfer fromBlock currentBlock
  | ERC1155 =>
      (queriesOf EvTransferSingle fromBlock currentBlock
       ++ queriesOf EvTransferBatch fromBlock currentBlock)%list
  end.

Definition asBigInts (o : balancesOf) : list (address * amount) :=
  map (fun e => (fst e, BigIntV (snd e))) o.

Definition asNumbers (o : balancesOf) : list (address * amount) :=
  map (fun e => (fst e, NumberV (snd e))) o.

Definition runLedger (env : Env) (contractType : ContractType)
    (fromBlock : option Z) (currentBlock : Z) : option (list (address * amount)) :=
  match contractType with
  | ERC20 =>
      Some (asBigInts (getERC20Holders
        (transfersOf (getPastEvents env EvTransfer fromBlock currentBlock))))
  | ERC721 =>
      Some (asNumbers (getERC721Holders
        (transfersOf (getPastEvents env EvTransfer fromBlock currentBlock))))
  | ERC1155 =>
      option_map asBigInts
        (getERC1155Holders
           (singlesOf (getPastEvents env EvTransferSingle fromBlock currentBlock))
           (batchesOf (getPastEvents env EvTransferBatch fromBlock currentBlock)))
  end.

Section Main.
Variable parseFloat : balance -> Q.

Definition main (env : Env) : Run :=
  match tokenSymbol env with
  | None => mkRun [] ReturnedFalse
  | Some tokenSymbol =>
      match resolveStart env with
      | None => mkRun [] Rejected
      | Some (existingHolders, fromBlock, contractDeploymentBlock) =>
          let currentBlock := getCurrentBlock env in
          match detectedType env with
          | None => mkRun [] Exit1
          | Some contractType =>
              let sent := ledgerQueries contractType fromBlock currentBlock in
              match runLedger env contractType fromBlock currentBlock with
              | None => mkRun sent Exit1
              | Some holders =>
                  let existingHolders :=
                    formatExisting contractType existingHolders in
                  let sortedHolders :=
                    mergeAndSort parseFloat contractType (isContract env)
                      existingHolders holders in
                  mkRun sent
                    (Exit0 (mkSnapshot sortedHolders currentBlock
                              contractDeploymentBlock tokenSymbol))
              end
          end
      end
  end.
End Main.

(** ** A reading of [parseFloat] for the worked examples

    The longest decimal prefix [sign digits . digits] of the printed
    value, read exactly.  The runtime rounds this value to the nearest
    double, a monotone step that changes nothing when the value is a
    double already, as it is for every balance of the examples below.  A
    string without such a prefix ([NaN] in JavaScript) reads as 0 here. *)

Definition digitOf (c : ascii) : option Z :=
  let n := Z.of_N (N_of_ascii c) in
  if (48 <=? n) && (n <=? 57) then Some (n - 48) else None.

Fixpoint readDigits (s : string) (acc : Z) (count : nat) : Z * nat * string :=
  match s with
  | EmptyString => (acc, count, s)
  | String c r =>
      match digitOf c with
      | Some d => readDigits r (10 * acc + d) (S count)
      | None => (acc, count, s)
      end
  end.

Definition decimalPrefix (s : string) : Q :=
  let '(negative, s) :=
    match s with
    | String c r =>
        if Ascii.eqb c "-" then (true, r)
        else if Ascii.eqb c "+" then (false, r) else (false, s)
    | EmptyString => (false, s)
    end in
  let '(whole, _, rest) := readDigits s 0 0 in
  let '(frac, places, _) :=
    match rest with
    | String c r => if Ascii.eqb c "." then readDigits r 0 0 else (0, O, rest)
    | EmptyString => (0, O, rest)
    end in
  let v := (inject_Z whole + (frac # Z.to_pos (10 ^ Z.of_nat places)))%Q in
  if negative then (- v)%Q else v.

Definition parseFloatExact (b : balance) : Q :=
  match b with
  | StrB s => decimalPrefix s
  | NumB n => inject_Z n
  end.

(** Strings made of decimal digits only. *)
Fixpoint allDigits (s : string) : Prop :=
  match s with
  | EmptyString => True
  | String c r => digitOf c <> None /\ allDigits r
  end.

(** ** The amount the merge step decides on for an address: the one of
    the fresh computation when the ledger produced one, else the one
    loaded from the previous snapshot, else none.  On a resumed run the
    fresh amount is the change over the fetched range, not the balance. *)
Definition runBalance (existingHolders : balancesOf)
    (holders : list (address * amount)) (a : address) : Z :=
  match Obj.get string_dec holders a with
  | Some v => intOf v
  | None => orZero (Obj.get string_dec existingHolders a)
  end.

(** ** Worked runs *)

(** A resumed run: the previous snapshot holds 10 tokens for 0xA1 and was
    taken at block 100; 5 more tokens are minted to 0xA1 in block 120. *)
Definition resumedRun : Env :=
  mkEnv 0 false (Some "TKN")
    (Some (mkSnapshot [("0xA1", StrB "10.000000000000000000")] 100 (Some 50) "TKN"))
    (fun b => b =? 50) 150 (Some ERC20)
    [(120, LogTransfer (mkTransfer ZeroAddress "0xA1" 5000000000000000000))]
    (fun _ => false).

(** A snapshot taken at block 100 that already counts the 3 tokens minted
    to 0xA1 in block 100; 2 more are minted in block 101. *)
Definition checkpointRun : Env :=
  mkEnv 0 false (Some "TKN")
    (Some (mkSnapshot [("0xA1", StrB "0.000000000000000003")] 100 (Some 50) "TKN"))
    (fun b => b =? 50) 150 (Some ERC20)
    [(100, LogTransfer (mkTransfer ZeroAddress "0xA1" 3));
     (101, LogTransfer (mkTransfer ZeroAddress "0xA1" 2))]
    (fun _ => false).

(** No snapshot file, no block that deploys the contract, 5 tokens minted
    to 0xA1 in block 7, the chain at block 1500. *)
Definition notFoundRun : Env :=
  mkEnv 0 false (Some "TKN") None (fun _ => false) 1500 (Some ERC20)
    [(7, LogTransfer (mkTransfer ZeroAddress "0xA1" 5000000000000000000))]
    (fun _ => false).

(** A first run over a token whose initial supply was never announced by a
    mint event: 0xA1 sends 5 base units to 0xB2 in block 120. *)
Definition debitRun : Env :=
  mkEnv 50 false (Some "TKN") None (fun b => b =? 50) 150 (Some ERC20)
    [(120, LogTransfer (mkTransfer "0xA1" "0xB2" 5))]
    (fun _ => false).

(** The next run, started on the snapshot the first one wrote. *)
Definition debitRerun : Env :=
  mkEnv 50 false (Some "TKN")
    (Some (mkSnapshot
             [("0xB2", StrB "0.000000000000000005");
              ("0xA1", StrB "0.0000000000000000-5")] 150 (Some 50) "TKN"))
    (fun b => b =? 50) 160 (Some ERC20)
    [(120, LogTransfer (mkTransfer "0xA1" "0xB2" 5))]
    (fun _ => false).

(** The token of [resumedRun] with its whole history on the chain: 10
    tokens minted to 0xA1 in block 60, the snapshot taken at block 100,
    5 more tokens minted to 0xA1 in block 120.  [refresh] is the
    [--refresh] flag. *)
Definition accumulationRun (refresh : bool) : Env :=
  mkEnv 0 refresh (Some "TKN")
    (Some (mkSnapshot [("0xA1", StrB "10.000000000000000000")] 100 (Some 50) "TKN"))
    (fun b => b =? 50) 150 (Some ERC20)
    [(60, LogTransfer (mkTransfer ZeroAddress "0xA1" 10000000000000000000));
     (120, LogTransfer (mkTransfer ZeroAddress "0xA1" 5000000000000000000))]
    (fun _ => false).

(** The same token and snapshot; after the snapshot 0xA1 sends its 10
    tokens to 0xB2 in block 120. *)
Definition drainRun (refresh : bool) : Env :=
  mkEnv 0 refresh (Some "TKN")
    (Some (mkSnapshot [("0xA1", StrB "10.000000000000000000")] 100 (Some 50) "TKN"))
    (fun b => b =? 50) 150 (Some ERC20)
    [(60, LogTransfer (mkTransfer ZeroAddress "0xA1" 10000000000000000000));
     (120, LogTransfer (mkTransfer "0xA1" "0xB2" 10000000000000000000))]
    (fun _ => false).

(** The same token and snapshot; after the snapshot 0xA1 sends 5 tokens
    to 0xB2 in block 120 and gets them back in block 121. *)
Definition returnRun (refresh : bool) : Env :=
  mkEnv 0 refresh (Some "TKN")
    (Some (mkSnapshot [("0xA1", StrB "10.000000000000000000")] 100 (Some 50) "TKN"))
    (fun b => b =? 50) 150 (Some ERC20)
    [(60, LogTransfer (mkTransfer ZeroAddress "0xA1" 10000000000000000000));
     (120, LogTransfer (mkTransfer "0xA1" "0xB2" 5000000000000000000));
     (121, LogTransfer (mkTransfer "0xB2" "0xA1" 5000000000000000000))]
    (fun _ => false).

(** The replay of every transfer the chain holds: the balances of the
    whole history. *)
Definition cumulativeBalances (env : Env) : balancesOf :=
  getERC20Holders (transfersOf (map snd (chainLogs env))).

(** A snapshot whose deployment block 50 does not verify, a run started
    with [--block 60], no block from 60 on that deploys the contract, 5
    tokens minted to 0xB2 in block 120. *)
Definition unverifiedRun : Env :=
  mkEnv 60 false (Some "TKN")
    (Some (mkSnapshot [("0xA1", StrB "10.000000000000000000")] 100 (Some 50) "TKN"))
    (fun _ => false) 150 (Some ERC20)
    [(120, LogTransfer (mkTransfer ZeroAddress "0xB2" 5000000000000000000))]
    (fun _ => false).

(** A run on a token without symbol, and one on a contract of no known
    type: the two lookups whose failure is checked. *)
Definition noTokenRun : Env :=
  mkEnv 0 false None None (fun _ => false) 1500 (Some ERC20)
    [(7, LogTransfer (mkTransfer ZeroAddress "0xA1" 5000000000000000000))]
    (fun _ => false).

Definition noTypeRun : Env :=
  mkEnv 0 false (Some "TKN") None (fun _ => false) 1500 None
    [(7, LogTransfer (mkTransfer ZeroAddress "0xA1" 5000000000000000000))]
    (fun _ => false).

(** ** Definitions for the further properties *)

(** *** The fetch windows and the ledgers (takeSnapshot.js:116-249) *)

(** The block [b] lies in the window [w] of [getPastEvents]. *)
Definition inWindow (b : Z) (w : Z * Z) : bool :=
  (fst w <=? b) && (b <=? snd w).

(** A log of the chain that one query for [eventName] over [lo..hi]
    returns. *)
Definition inRange (eventName : EventName) (lo hi : Z) (bl : Z * Log) : bool :=
  (lo <=? fst bl) && (fst bl <=? hi)
  && EventName_eqb (eventNameOf (snd bl)) eventName.

(** The sum of the balances of an object. *)
Definition sumValues {K : Type} (o : Obj.t (K := K) (V := Z)) : Z :=
  fold_right (fun e acc => snd e + acc) 0 o.

(** What an event adds to the total supply: a mint adds its value, a burn
    takes it away, a transfer between two addresses changes nothing. *)
Definition supplyChange (ev : TransferArgs) : Z :=
  (if isZeroAddress (t_to ev) then 0 else t_value ev)
  - (if isZeroAddress (t_from ev) then 0 else t_value ev).

(** A batch event that names at least one token id: the loop of line 223
    has a first step. *)
Definition namesAnId (event : TransferBatchArgs) : Prop :=
  b_ids event <> [].

(** A batch event with fewer values than ids. *)
Definition shortBatch (event : TransferBatchArgs) : Prop :=
  (List.length (b_values event) < List.length (b_ids event))%nat.

(** A single transfer without its token id. *)
Definition forgetId (event : TransferSingleArgs) : TransferArgs :=
  mkTransfer (s_from event) (s_to event) (s_value event).

(** Every address of the per-id map has at least one id. *)
Definition populated (balances : balances1155) : Prop :=
  forall a inner, Obj.get string_dec balances a = Some inner -> inner <> [].

(** The per-id map and a fungible balance map that hold the same totals. *)
Definition sameTotals (balances : balances1155) (b : balancesOf) : Prop :=
  forall a,
    option_map sumValues (Obj.get string_dec balances a)
    = Obj.get string_dec b a.

(** What [move1155] does to the ids of one address: the id is created at
    zero when it has no truthy balance, then moved by [sign * value]. *)
Definition bumpId (sign : Z) (inner : idBalances) (id valueBigInt : Z)
  : idBalances :=
  let inner :=
    if falsy (Obj.get Z.eq_dec inner id)
    then Obj.set Z.eq_dec inner id 0 else inner in
  Obj.set Z.eq_dec inner id
    (orZero (Obj.get Z.eq_dec inner id) + sign * valueBigInt).

(** The number a string of decimal digits writes. *)
Definition valueOf (s : string) : Z := fst (fst (readDigits s 0 0)).

(** The balances that survive being written and loaded again, by token
    kind: nonnegative amounts as decimal strings, counts that a double
    holds exactly as numbers. *)
Definition reloadable (contractType : ContractType) (z : Z) : Prop :=
  match contractType with
  | ERC20 => 0 <= z
  | _ => 0 <= z < 2 ^ 53
  end.

(** A run with nothing new: the snapshot of [resumedRun], no log after
    it. *)
Definition idleRun : Env :=
  mkEnv 0 false (Some "TKN")
    (Some (mkSnapshot
             [("0xA1", StrB "10.000000000000000000");
              ("0xB2", StrB "0.000000000000000007")] 100 (Some 50) "TKN"))
    (fun b => b =? 50) 150 (Some ERC20)
    [(90, LogTransfer (mkTransfer ZeroAddress "0xA1" 10000000000000000000))]
    (fun _ => false).

(** An ERC-1155 contract whose one event is the batch of ids 1 and 2 with
    the values 5 and 3, from 0xA1 to 0xB2 in block 120. *)
Definition batchRun : Env :=
  mkEnv 50 false (Some "MT") None (fun b => b =? 50) 150 (Some ERC1155)
    [(120, LogTransferBatch (mkBatch "0xA1" "0xB2" [1; 2] [5; 3]))]
    (fun _ => false).

(** The same contract with the two single transfers in place of the
    batch. *)
Definition singlesRun : Env :=
  mkEnv 50 false (Some "MT") None (fun b => b =? 50) 150 (Some ERC1155)
    [(120, LogTransferSingle (mkSingle "0xA1" "0xB2" 1 5));
     (120, LogTransferSingle (mkSingle "0xA1" "0xB2" 2 3))]
    (fun _ => false).

(** An ERC-1155 contract whose one batch event has two ids and one
    value. *)
Definition shortBatchRun : Env :=
  mkEnv 50 false (Some "MT") None (fun b => b =? 50) 150 (Some ERC1155)
    [(120, LogTransferBatch (mkBatch ZeroAddress "0xA1" [1; 2] [5]))]
    (fun _ => false).

(** *** The report: [commify] and the end of [main]
    (takeSnapshot.js:319-330, 424-467) *)

Definition isDigit (c : ascii) : bool :=
  match digitOf c with Some _ => true | None => false end.

(** The longest run of digits at the start of a string, and the rest: what
    a greedy digit group of the pattern takes. *)
Fixpoint spanDigits (s : string) : string * string :=
  match s with
  | EmptyString => (EmptyString, EmptyString)
  | String c r =>
      if isDigit c
      then let (d, rest) := spanDigits r in (String c d, rest)
      else (EmptyString, s)
  end.

(** The pattern of [commify]: an optional minus sign, digits, an optional
    point, digits, the end of the string.  The result holds the groups 1, 2
    and 4, or is [None] when the string is not of that form.  The classes
    of the groups are disjoint, so the greedy reading is the only one. *)
Definition matchNumber (value : string) : option (string * string * string) :=
  let (neg, s1) :=
    match value with
    | String c r => if Ascii.eqb c "-" then ("-", r) else (EmptyString, value)
    | EmptyString => (EmptyString, value)
    end in
  let (whole, s2) := spanDigits s1 in
  let s3 :=
    match s2 with
    | String c r => if Ascii.eqb c "." then r else s2
    | EmptyString => s2
    end in
  let (frac, s4) := spanDigits s3 in
  match s4 with
  | EmptyString => Some (neg, whole, frac)
  | String _ _ => None
  end.

(** Group 1 of the second pattern (anything, lazily, then zeros up to the
    end): the string without its trailing zeros. *)
Fixpoint stripTrailingZeros (s : string) : string :=
  match s with
  | EmptyString => EmptyString
  | String c r =>
      let r' := stripTrailingZeros r in
      if Ascii.eqb c "0" && String.eqb r' EmptyString
      then EmptyString else String c r'
  end.

(** [n.toLocaleString("en-us")] on the digits of a nonnegative BigInt: a
    comma before every group of three digits counted from the right. *)
Fixpoint groupThousands (digits : string) : string :=
  match digits with
  | EmptyString => EmptyString
  | String c r =>
      let k := String.length r in
      String c
        (if negb (k =? 0)%nat && (k mod 3 =? 0)%nat
         then String "," (groupThousands r) else groupThousands r)
  end.

(** [commify] (takeSnapshot.js:319-330); [None] is the thrown error. *)
Definition commify (value : string) : option string :=
  match matchNumber value with
  | None => None
  | Some (neg, whole, frac) =>
      if String.eqb whole EmptyString && String.eqb frac EmptyString
      then None
      else
        match (if String.eqb whole EmptyString then Some 0
               else BigInt_of_string whole) with
        | None => None
        | Some w =>
            Some (neg ++ groupThousands (BigInt_toString w) ++ "."
                  ++ (if String.eqb frac EmptyString then "0"
                      else stripTrailingZeros frac))
        end
  end.

(** [commify(balance.toString())] on a persisted balance.  A Number from
    1e21 on prints in exponent notation, which the pattern rejects. *)
Definition commifyBalance (b : balance) : option string :=
  match b with
  | StrB s => commify s
  | NumB n =>
      if Z.abs n <? 10 ^ 21 then commify (Number_toString n) else None
  end.

(** The lines of the top-10 list (lines 457-459), without the colours;
    [None] when one [commify] throws. *)
Fixpoint reportLines (tokenSym : string) (top : list (address * balance))
  : option (list string) :=
  match top with
  | [] => Some []
  | (holder, b) :: r =>
      match commifyBalance b with
      | None => None
      | Some text =>
          option_map (cons (holder ++ ": " ++ text ++ " " ++ tokenSym))
            (reportLines tokenSym r)
      end
  end.

(** [sortedHolders.slice(0, 10)]. *)
Definition topHolders (sortedHolders : list (address * balance))
  : list (address * balance) :=
  firstn 10 sortedHolders.

(** The status the process ends with: 0 from [process.exit(0)] or when
    [main] returns, 1 from the [catch] block or an unhandled rejection.
    The report comes after the snapshot is written, inside the [try]. *)
Definition exitStatus (run : Run) : Z :=
  match outcome run with
  | ReturnedFalse => 0
  | Rejected => 1
  | Exit1 => 1
  | Exit0 snap =>
      match reportLines (symbol snap) (topHolders (holders snap)) with
      | Some _ => 0
      | None => 1
      end
  end.

(** The two counters of the merge loop (lines 425 and 427): one more
    "transaction" per entry, and the entry's address added to a set. *)
Definition addToSet (s : list address) (a : address) : list address :=
  if in_dec string_dec a s then s else (s ++ [a])%list.

Definition countEntry (acc : nat * list address) (entry : address * amount)
  : nat * list address :=
  (S (fst acc), addToSet (snd acc) (fst entry)).

Definition mergeCounters (holders : list (address * amount))
  : nat * list address :=
  fold_left countEntry holders (O, []).

(** A grouped number without its commas. *)
Fixpoint removeCommas (s : string) : string :=
  match s with
  | EmptyString => EmptyString
  | String c r =>
      if Ascii.eqb c "," then removeCommas r else String c (removeCommas r)
  end.

(** *** [hexToAscii] (tallySankoPets.js:104-113 and, with the same body,
    getSankoPetMetadata.js:80-89) *)

(** The value of a hexadecimal digit, in either case. *)
Definition hexDigit (c : ascii) : option Z :=
  let n := Z.of_N (N_of_ascii c) in
  if (48 <=? n) && (n <=? 57) then Some (n - 48)
  else if (97 <=? n) && (n <=? 102) then Some (n - 87)
  else if (65 <=? n) && (n <=? 70) then Some (n - 55)
  else None.

(** [parseInt(pair, 16)] on the two characters [hex.substr(i, 2)], as far
    as the test [code > 31 && code < 127] can tell: two hexadecimal digits
    give their number; any other pair gives [NaN] or a number below 16 in
    absolute value (one digit after a sign or a blank, or before a
    non-digit), which the test rejects like [None] here. *)
Definition pairCode (c1 c2 : ascii) : option Z :=
  match hexDigit c1, hexDigit c2 with
  | Some a, Some b => Some (16 * a + b)
  | _, _ => None
  end.

(** The test [code > 31 && code < 127]. *)
Definition printableCode (code : Z) : bool := (31 <? code) && (code <? 127).

(** [String.fromCharCode(code)] for a code below 256. *)
Definition fromCharCode (code : Z) : ascii := ascii_of_N (Z.to_N code).

(** The loop over the pairs; a last character without a partner is a
    single digit at most and adds nothing. *)
Fixpoint decodePairs (s : string) : string :=
  match s with
  | String c1 (String c2 r) =>
      match pairCode c1 c2 with
      | Some code =>
          if printableCode code
          then String (fromCharCode code) (decodePairs r)
          else decodePairs r
      | None => decodePairs r
      end
  | _ => EmptyString
  end.

(** The last [replace] of [hexToAscii]: every run of characters outside
    the range from the space to the tilde is taken out. *)
Fixpoint keepPrintable (s : string) : string :=
  match s with
  | EmptyString => EmptyString
  | String c r =>
      if printableCode (Z.of_N (N_of_ascii c))
      then String c (keepPrintable r) else keepPrintable r
  end.

(** The loop starts at index 2, after the two characters of the prefix. *)
Definition hexToAscii (hex : string) : string :=
  keepPrintable (decodePairs (drop 2 hex)).

(** Two lowercase hexadecimal digits for a character: what the node
    answers with for each byte of its result. *)
Definition hexChar (n : Z) : ascii :=
  ascii_of_N (Z.to_N (if n <? 10 then 48 + n else 87 + n)).

Fixpoint hexEncode (s : string) : string :=
  match s with
  | EmptyString => EmptyString
  | String c r =>
      let n := Z.of_N (N_of_ascii c) in
      String (hexChar (n / 16)) (String (hexChar (n mod 16)) (hexEncode r))
  end.

(** Every character of the string is printable ASCII. *)
Fixpoint allPrintable (s : string) : Prop :=
  match s with
  | EmptyString => True
  | String c r =>
      printableCode (Z.of_N (N_of_ascii c)) = true /\ allPrintable r
  end.

(** *** The batches of the airdrop sender (cacheToCSV.js:376-413)

    The senders share one loop: [for (i = 0; i < recipients.length;
    i += batchSize)] with [recipients.slice(i, i + batchSize)].  The batch
    size is taken to be a whole number, at least 1 as the [--batch] option
    checks (lines 299-310).  A failed transaction is caught and logged
    inside the loop, so the slicing of [airdropERC721] and
    [airdropERC1155] does not depend on it; the amounts of the latter are
    taken to parse.  [airdropERC20] is left out: its total is computed
    with [acc.add] on a BigInt, outside the [try]. *)
Equations? sendBatches {A : Type} (perBatch : positive) (recipients : list A)
    (i : nat) : list (list A) by wf (List.length recipients - i)%nat lt :=
  sendBatches perBatch recipients i with lt_dec i (List.length recipients) => {
    | left _ := firstn (Pos.to_nat perBatch) (skipn i recipients)
                  :: sendBatches perBatch recipients (i + Pos.to_nat perBatch);
    | right _ := [] }.
Proof. pose proof (Pos2Nat.is_pos perBatch). lia. Qed.

(** The batches in the order they are sent. *)
Definition airdropBatches {A : Type} (perBatch : positive)
    (recipients : list A) : list (list A) :=
  sendBatches perBatch recipients 0.

(** * Properties *)

(** ** Objects *)

Section ObjFacts.
Context {K V : Type} (eq_dec : forall x y : K, {x = y} + {x <> y}).

#[local] Abbreviation get := (Obj.get eq_dec).
#[local] Abbreviation set := (Obj.set eq_dec).
#[local] Abbreviation delete := (Obj.delete eq_dec).

Lemma get_set_eq (o : Obj.t) k (v : V) : get (set o k v) k = Some v.
Proof.
  induction o as [|[k' v'] r IH]; simpl.
  - destruct (eq_dec k k); congruence.
  - destruct (eq_dec k k') as [E|N]; simpl.
    + destruct (eq_dec k k); congruence.
    + destruct (eq_dec k k'); congruence.
Qed.

Lemma get_set_neq (o : Obj.t) k k' (v : V) :
  k' <> k -> get (set o k v) k' = get o k'.
Proof.
  intros N. induction o as [|[k0 v0] r IH]; simpl.
  - destruct (eq_dec k' k); congruence.
  - destruct (eq_dec k k0) as [E|N0]; simpl.
    + subst. destruct (eq_dec k' k0); congruence.
    + destruct (eq_dec k' k0); congruence.
Qed.

Lemma get_delete_eq (o : Obj.t (V := V)) k : get (delete o k) k = None.
Proof.
  induction o as [|[k' v'] r IH]; simpl; auto.
  destruct (eq_dec k k') as [E|N]; simpl; auto.
  destruct (eq_dec k k'); congruence.
Qed.

Lemma get_delete_neq (o : Obj.t (V := V)) k k' :
  k' <> k -> get (delete o k) k' = get o k'.
Proof.
  intros N. induction o as [|[k0 v0] r IH]; simpl; auto.
  destruct (eq_dec k k0) as [E|N0]; simpl.
  - subst. destruct (eq_dec k' k0); congruence.
  - destruct (eq_dec k' k0); congruence.
Qed.

Lemma get_None_notin (o : Obj.t (V := V)) k :
  get o k = None <-> ~ In k (Obj.keys o).
Proof.
  induction o as [|[k' v'] r IH]; simpl.
  - tauto.
  - destruct (eq_dec k k') as [E|N].
    + subst. split; [discriminate | tauto].
    + rewrite IH. split; [intros H [E|I]; [congruence | tauto] | tauto].
Qed.

Lemma get_Some_in (o : Obj.t) k (v : V) : get o k = Some v -> In (k, v) o.
Proof.
  induction o as [|[k' v'] r IH]; simpl; [discriminate|].
  destruct (eq_dec k k') as [E|N].
  - intros [= ->]. subst. auto.
  - auto.
Qed.

Lemma in_get_NoDup (o : Obj.t) k (v : V) :
  NoDup (Obj.keys o) -> In (k, v) o -> get o k = Some v.
Proof.
  induction o as [|[k' v'] r IH]; simpl; [tauto|].
  intros ND [E|I].
  - inversion E; subst. destruct (eq_dec k k); congruence.
  - inversion ND as [|? ? NI ND']; subst.
    destruct (eq_dec k k') as [E|N]; [|auto].
    subst. exfalso. apply NI. apply (in_map fst) in I. exact I.
Qed.

(** Writing what is already there changes nothing. *)
Lemma set_same (o : Obj.t) k (v : V) : get o k = Some v -> set o k v = o.
Proof.
  induction o as [|[k' v'] r IH]; simpl; [discriminate|].
  destruct (eq_dec k k') as [E|N].
  - intros [= ->]. subst. reflexivity.
  - intros H. rewrite IH; auto.
Qed.

Lemma delete_absent (o : Obj.t (V := V)) k : get o k = None -> delete o k = o.
Proof.
  induction o as [|[k' v'] r IH]; simpl; auto.
  destruct (eq_dec k k') as [E|N]; [discriminate|].
  intros H. rewrite IH; auto.
Qed.

Lemma keys_set (o : Obj.t) k (v : V) :
  Obj.keys (set o k v)
  = match get o k with
    | Some _ => Obj.keys o
    | None => (Obj.keys o ++ [k])%list
    end.
Proof.
  induction o as [|[k' v'] r IH]; simpl; auto.
  destruct (eq_dec k k') as [E|N]; simpl.
  - subst. reflexivity.
  - rewrite IH. destruct (get r k); reflexivity.
Qed.

Lemma NoDup_keys_set (o : Obj.t) k (v : V) :
  NoDup (Obj.keys o) -> NoDup (Obj.keys (set o k v)).
Proof.
  intros ND. rewrite keys_set. destruct (get o k) eqn:G; auto.
  apply get_None_notin in G.
  apply NoDup_app; auto.
  - constructor; [simpl; tauto | constructor].
  - intros x I [E|[]]. subst. tauto.
Qed.

Lemma in_keys_delete (o : Obj.t (V := V)) k x :
  In x (Obj.keys (delete o k)) -> In x (Obj.keys o).
Proof.
  induction o as [|[k' v'] r IH]; simpl; auto.
  destruct (eq_dec k k'); simpl; intuition.
Qed.

Lemma NoDup_keys_delete (o : Obj.t (V := V)) k :
  NoDup (Obj.keys o) -> NoDup (Obj.keys (delete o k)).
Proof.
  induction o as [|[k' v'] r IH]; simpl; auto.
  intros ND. inversion ND as [|? ? NI ND']; subst.
  destruct (eq_dec k k'); simpl; auto.
  constructor; auto. intros I. apply NI. eapply in_keys_delete; eauto.
Qed.

Lemma in_keys_get (o : Obj.t (V := V)) k :
  In k (Obj.keys o) <-> get o k <> None.
Proof.
  pose proof (get_None_notin o k) as H.
  destruct (get o k); split; intros; try congruence; try tauto.
  destruct (in_dec eq_dec k (Obj.keys o)); auto.
  exfalso. assert (Some v = None) by (apply H; auto). discriminate.
Qed.
End ObjFacts.

(** ** The stable sort *)

Section StableSortFacts.
Context {A : Type} (before : A -> A -> bool).

Hypothesis before_asym : forall x y, before x y = true -> before y x = false.
Hypothesis mayPrecede_trans :
  forall x y z,
    mayPrecede before x y -> mayPrecede before y z -> mayPrecede before x z.

Lemma insertSorted_perm x l : Permutation (insertSorted before x l) (x :: l).
Proof.
  induction l as [|y r IH]; simpl; auto.
  destruct (before y x); auto.
  rewrite IH. apply perm_swap.
Qed.

Lemma stableSort_perm l : Permutation (stableSort before l) l.
Proof.
  induction l as [|x r IH]; simpl; auto.
  rewrite insertSorted_perm. auto.
Qed.

Lemma insertSorted_sorted x l :
  StronglySorted (mayPrecede before) l ->
  StronglySorted (mayPrecede before) (insertSorted before x l).
Proof.
  induction 1 as [|y r S IH F]; simpl.
  - constructor; constructor.
  - destruct (before y x) eqn:B.
    + constructor; auto.
      rewrite Forall_forall in *. intros z I.
      apply (Permutation_in _ (insertSorted_perm x r)) in I.
      destruct I as [<-|I]; [apply before_asym; exact B | auto].
    + constructor; [constructor; auto|].
      constructor; [exact B|].
      rewrite Forall_forall in *. intros z I.
      apply mayPrecede_trans with y; [exact B | auto].
Qed.

Lemma stableSort_sorted l : StronglySorted (mayPrecede before) (stableSort before l).
Proof.
  induction l as [|x r IH]; simpl; [constructor|].
  apply insertSorted_sorted. exact IH.
Qed.

Lemma stableSort_of_sorted l :
  StronglySorted (mayPrecede before) l -> stableSort before l = l.
Proof.
  induction 1 as [|x r S IH F]; simpl; auto.
  rewrite IH. destruct r as [|y r']; simpl; auto.
  inversion F as [|? ? B _]; subst. unfold mayPrecede in B.
  rewrite B. reflexivity.
Qed.

Lemma stableSort_idempotent l :
  stableSort before (stableSort before l) = stableSort before l.
Proof. apply stableSort_of_sorted, stableSort_sorted. Qed.

(** Stability: the members of a class of mutually unordered elements come
    out in the order they went in. *)
Lemma insertSorted_filter (p : A -> bool) x l :
  (forall a b, p a = true -> p b = true -> before a b = false) ->
  filter p (insertSorted before x l) = filter p (x :: l).
Proof.
  intros C. induction l as [|y r IH]; simpl; auto.
  destruct (before y x) eqn:B; simpl; auto.
  rewrite IH. simpl.
  destruct (p x) eqn:Px, (p y) eqn:Py; auto.
  rewrite (C y x Py Px) in B. discriminate.
Qed.

Lemma stableSort_filter (p : A -> bool) l :
  (forall a b, p a = true -> p b = true -> before a b = false) ->
  filter p (stableSort before l) = filter p l.
Proof.
  intros C. induction l as [|x r IH]; simpl; auto.
  rewrite insertSorted_filter by exact C. simpl. rewrite IH. reflexivity.
Qed.
End StableSortFacts.

Section SortHolders.
Variable parseFloat : balance -> Q.

Lemma holderBefore_lt x y :
  holderBefore parseFloat x y = true
  <-> (parseFloat (snd y) < parseFloat (snd x))%Q.
Proof.
  unfold holderBefore, compareHolders.
  set (a := parseFloat (snd x)). set (b := parseFloat (snd y)).
  assert (E : ((b - a ?= 0) = Lt <-> b < a)%Q).
  { rewrite <- Qlt_alt. rewrite (Qlt_minus_iff b a), (Qlt_minus_iff (b - a) 0).
    assert (R : (0 + - (b - a) == a + - b)%Q) by ring.
    rewrite R. tauto. }
  rewrite <- E. destruct (b - a ?= 0)%Q; split; intros; congruence.
Qed.

Lemma holderBefore_false x y :
  holderBefore parseFloat x y = false
  <-> (parseFloat (snd x) <= parseFloat (snd y))%Q.
Proof.
  pose proof (holderBefore_lt x y) as H.
  destruct (holderBefore parseFloat x y); split; intros G; auto.
  - discriminate.
  - exfalso. apply (Qle_not_lt _ _ G). apply H. reflexivity.
  - apply Qnot_lt_le. intros L. apply H in L. discriminate.
Qed.

Lemma holderBefore_asym x y :
  holderBefore parseFloat x y = true -> holderBefore parseFloat y x = false.
Proof.
  rewrite holderBefore_lt, holderBefore_false. apply Qlt_le_weak.
Qed.

Lemma holder_mayPrecede_trans x y z :
  mayPrecede (holderBefore parseFloat) x y ->
  mayPrecede (holderBefore parseFloat) y z ->
  mayPrecede (holderBefore parseFloat) x z.
Proof.
  unfold mayPrecede. rewrite !holderBefore_false. intros H1 H2.
  eapply Qle_trans; eauto.
Qed.

Lemma sortHolders_perm l : Permutation (sortHolders parseFloat l) l.
Proof. apply stableSort_perm. Qed.

Lemma sortHolders_idempotent l :
  sortHolders parseFloat (sortHolders parseFloat l) = sortHolders parseFloat l.
Proof.
  apply stableSort_idempotent.
  - exact holderBefore_asym.
  - exact holder_mayPrecede_trans.
Qed.

Lemma sortHolders_descending l :
  StronglySorted
    (fun x y => (parseFloat (snd y) <= parseFloat (snd x))%Q)
    (sortHolders parseFloat l).
Proof.
  pose proof (stableSort_sorted (holderBefore parseFloat)
                holderBefore_asym holder_mayPrecede_trans l) as S.
  unfold sortHolders.
  induction S as [|x r S IH F]; constructor; auto.
  rewrite Forall_forall in *. intros y I.
  apply holderBefore_false. apply F. exact I.
Qed.

Lemma sortHolders_stable (q : Q) l :
  filter (fun x => Qeq_bool (parseFloat (snd x)) q) (sortHolders parseFloat l)
  = filter (fun x => Qeq_bool (parseFloat (snd x)) q) l.
Proof.
  apply stableSort_filter.
  intros a b Ha Hb. apply Qeq_bool_iff in Ha, Hb.
  apply holderBefore_false. rewrite Ha, Hb. apply Qle_refl.
Qed.
End SortHolders.

(** ** The fungible ledger *)

#[local] Abbreviation sget := (Obj.get string_dec).
#[local] Abbreviation sset := (Obj.set string_dec).

Lemma falsy_orZero (x : option Z) : falsy x = true -> orZero x = 0.
Proof. destruct x as [z|]; simpl; [rewrite Z.eqb_eq; auto | auto]. Qed.

(** One side of a transfer rewrites the slot of [who], created at 0 when
    missing, leaving the other slots alone. *)
Lemma get_bump (f : Z -> Z) (b : balancesOf) who a :
  sget
    (let b' := if falsy (sget b who) then sset b who 0 else b in
     sset b' who (f (orZero (sget b' who)))) a
  = if string_dec a who then Some (f (orZero (sget b who))) else sget b a.
Proof.
  cbv zeta. destruct (string_dec a who) as [->|N].
  - rewrite get_set_eq. destruct (falsy (sget b who)) eqn:F; auto.
    rewrite get_set_eq. rewrite (falsy_orZero _ F). reflexivity.
  - rewrite get_set_neq by exact N.
    destruct (falsy (sget b who)); auto. apply get_set_neq. exact N.
Qed.

Lemma get_credit b who v a :
  sget (credit b who v) a
  = if string_dec a who then Some (orZero (sget b who) + v) else sget b a.
Proof. apply (get_bump (fun x => x + v)). Qed.

Lemma get_debit b who v a :
  sget (debit b who v) a
  = if string_dec a who then Some (orZero (sget b who) - v) else sget b a.
Proof. apply (get_bump (fun x => x - v)). Qed.

Lemma get_applyTransfer b ev a :
  sget (applyTransfer b ev) a
  = if touches a ev
    then Some (orZero (sget b a) + (inflow a ev - outflow a ev))
    else sget b a.
Proof.
  unfold applyTransfer, touches, inflow, outflow.
  destruct (isZeroAddress (t_from ev)), (isZeroAddress (t_to ev)); simpl;
    rewrite ?get_credit, ?get_debit;
    repeat match goal with
    | |- context [string_dec ?x ?y] =>
        destruct (string_dec x y) as [->|?];
        [rewrite ?String.eqb_refl
        |match goal with N : _ <> _ |- _ =>
           rewrite ?(proj2 (String.eqb_neq _ _) N) end]
    end; simpl; rewrite ?get_debit;
    repeat match goal with
    | |- context [string_dec ?x ?y] =>
        destruct (string_dec x y) as [?|?]; try congruence
    end; simpl; try reflexivity; f_equal; lia.
Qed.

Lemma untouched_netFlow a l : existsb (touches a) l = false -> netFlow a l = 0.
Proof.
  induction l as [|ev r IH]; simpl; auto.
  rewrite orb_false_iff. intros [T E]. rewrite (IH E).
  unfold touches in T. apply orb_false_iff in T. destruct T as [T1 T2].
  unfold inflow, outflow. rewrite T1, T2. reflexivity.
Qed.

Lemma get_fold_applyTransfer l b a :
  sget (fold_left applyTransfer l b) a
  = if existsb (touches a) l
    then Some (orZero (sget b a) + netFlow a l)
    else sget b a.
Proof.
  revert b. induction l as [|ev r IH]; intros b; simpl; auto.
  rewrite IH, get_applyTransfer.
  destruct (touches a ev) eqn:T; simpl.
  - destruct (existsb (touches a) r) eqn:E; f_equal; simpl; try lia.
    rewrite (untouched_netFlow _ _ E). lia.
  - unfold touches in T. apply orb_false_iff in T. destruct T as [T1 T2].
    unfold inflow, outflow. rewrite T1, T2.
    destruct (existsb (touches a) r); f_equal; lia.
Qed.

Lemma netFlow_perm a l1 l2 : Permutation l1 l2 -> netFlow a l1 = netFlow a l2.
Proof. induction 1; simpl; lia. Qed.

Lemma touched_perm a l1 l2 :
  Permutation l1 l2 -> existsb (touches a) l1 = existsb (touches a) l2.
Proof.
  induction 1 as [|x l l' P IH|x y l|l l' l'' P1 IH1 P2 IH2]; simpl; auto.
  - rewrite IH. reflexivity.
  - destruct (touches a x), (touches a y); reflexivity.
  - congruence.
Qed.

(** C6. Fungible reconstruction does not depend on the order of the events:
    two transfer sequences that are permutations of each other give balance
    maps that agree at every address (same addresses present, same
    balances). *)
Theorem C6_fungible_reordering (l1 l2 : list TransferArgs) :
  Permutation l1 l2 ->
  forall a : address,
    Obj.get string_dec (getERC20Holders l1) a
    = Obj.get string_dec (getERC20Holders l2) a.
Proof.
  intros P a. unfold getERC20Holders.
  rewrite !get_fold_applyTransfer.
  rewrite (touched_perm a _ _ P), (netFlow_perm a _ _ P). reflexivity.
Qed.

Lemma C6_fungible_reordering_witness :
  Permutation
    [mkTransfer ZeroAddress "0xA1" 10; mkTransfer "0xA1" "0xB2" 4]
    [mkTransfer "0xA1" "0xB2" 4; mkTransfer ZeroAddress "0xA1" 10]
  /\ Obj.get string_dec
       (getERC20Holders
          [mkTransfer ZeroAddress "0xA1" 10; mkTransfer "0xA1" "0xB2" 4]) "0xA1"
     = Obj.get string_dec
       (getERC20Holders
          [mkTransfer "0xA1" "0xB2" 4; mkTransfer ZeroAddress "0xA1" 10]) "0xA1".
Proof.
  split.
  - apply perm_swap.
  - apply C6_fungible_reordering. apply perm_swap.
Defined.

(** ** The single-owner ledger *)

Lemma isZeroAddress_false a : a <> ZeroAddress -> isZeroAddress a = false.
Proof. intros N. apply String.eqb_neq. exact N. Qed.

Lemma get_countOwner h owner a :
  sget (countOwner h owner) a
  = if string_dec a owner then Some (orZero (sget h owner) + 1) else sget h a.
Proof. apply (get_bump (fun x => x + 1)). Qed.

(** C7. Replaying the mint of token 1 to [A] and then its transfer from [A]
    to [B] leaves token 1 owned by [B], [A] absent from the holder counts
    (count 0) and [B] with count 1. *)
Theorem C7_single_owner_replay (A B : address) :
  A <> B ->
  B <> ZeroAddress ->
  let events := [mkTransfer ZeroAddress A 1; mkTransfer A B 1] in
  Obj.get Z.eq_dec (tokenOwnersOf events) 1 = Some B
  /\ Obj.get string_dec (getERC721Holders events) A = None
  /\ Obj.get string_dec (getERC721Holders events) B = Some 1.
Proof.
  intros NAB NB events.
  assert (O : tokenOwnersOf events = [(1, B)]).
  { unfold events, tokenOwnersOf, applyOwnership. simpl.
    rewrite (isZeroAddress_false B NB).
    destruct (isZeroAddress A); reflexivity. }
  unfold getERC721Holders. rewrite O.
  change (map snd (ownEntries [(1, B)])) with [B].
  cbn [fold_left]. rewrite !get_countOwner.
  repeat split.
  - destruct (string_dec A B); [congruence | reflexivity].
  - destruct (string_dec B B); [reflexivity | congruence].
Qed.

Lemma C7_single_owner_replay_witness :
  let events := [mkTransfer ZeroAddress "0xA1" 1; mkTransfer "0xA1" "0xB2" 1] in
  Obj.get Z.eq_dec (tokenOwnersOf events) 1 = Some "0xB2"
  /\ Obj.get string_dec (getERC721Holders events) "0xA1" = None
  /\ Obj.get string_dec (getERC721Holders events) "0xB2" = Some 1.
Proof.
  apply (C7_single_owner_replay "0xA1" "0xB2"); discriminate.
Defined.

(** ** The multi-token ledger *)

(** A batch that names an id stops the replay at that id; a batch without
    ids changes nothing. *)
Lemma applyBatch_ids balances event :
  applyBatch (Some balances) event
  = match b_ids event with
    | [] => Some balances
    | _ :: _ => None
    end.
Proof. unfold applyBatch. destruct (b_ids event); reflexivity. Qed.

(** C5, the code at the failing input. The batch of ids [1;2] and values
    [5;3] from A to B makes the multi-token ledger throw, where the two
    single transfers (1,5) and (2,3) give A the balance -8 and B the
    balance 8; the run on the batch ends with an error after its queries
    and writes nothing, the run on the singles writes its snapshot. *)
Theorem C5_batch_throws_where_singles_settle :
  getERC1155Holders [] [mkBatch "0xA1" "0xB2" [1; 2] [5; 3]] = None
  /\ getERC1155Holders
       [mkSingle "0xA1" "0xB2" 1 5; mkSingle "0xA1" "0xB2" 2 3] []
     = Some [("0xA1", -8); ("0xB2", 8)]
  /\ main parseFloatExact batchRun
     = mkRun [(EvTransferSingle, (50, 150)); (EvTransferBatch, (50, 150))]
         Exit1
  /\ main parseFloatExact singlesRun
     = mkRun [(EvTransferSingle, (50, 150)); (EvTransferBatch, (50, 150))]
         (Exit0 (mkSnapshot
                   [("0xB2", NumB 8); ("0xA1", NumB (-8))]
                   150 (Some 50) "MT")).
Proof. repeat split; vm_compute; reflexivity. Qed.

(** ** The merge *)

Lemma get_perm {V : Type} (l1 l2 : Obj.t (K := address) (V := V)) a :
  NoDup (Obj.keys l1) -> Permutation l1 l2 ->
  Obj.get string_dec l1 a = Obj.get string_dec l2 a.
Proof.
  intros ND P.
  assert (ND2 : NoDup (Obj.keys l2)).
  { eapply Permutation_NoDup; [apply Permutation_map; exact P | exact ND]. }
  destruct (Obj.get string_dec l1 a) as [v|] eqn:G.
  - symmetry. apply in_get_NoDup; auto.
    eapply Permutation_in; [exact P|]. eapply get_Some_in; eauto.
  - symmetry. apply get_None_notin. apply get_None_notin in G.
    intros I. apply G. eapply Permutation_in; [|exact I].
    apply Permutation_map. symmetry. exact P.
Qed.

Lemma keys_formatExisting contractType existingHolders :
  Obj.keys (formatExisting contractType existingHolders)
  = Obj.keys existingHolders.
Proof.
  unfold formatExisting, Obj.keys. rewrite map_map. reflexivity.
Qed.

Lemma get_formatExisting contractType existingHolders a :
  Obj.get string_dec (formatExisting contractType existingHolders) a
  = option_map (fun z => formatHolder contractType (BigIntV z))
      (Obj.get string_dec existingHolders a).
Proof.
  induction existingHolders as [|[k z] r IH]; simpl; auto.
  destruct (string_dec a k); auto.
Qed.

Section MergeFacts.
Variable contractType : ContractType.
Variable isContract : address -> bool.

#[local] Abbreviation merge := (mergeHolders contractType isContract).

Lemma get_mergeHolder existingHolders holder fresh a :
  Obj.get string_dec
    (mergeHolder contractType isContract existingHolders (holder, fresh)) a
  = if string_dec a holder then merged contractType isContract holder fresh
    else Obj.get string_dec existingHolders a.
Proof.
  unfold mergeHolder, merged.
  destruct (strictNeqZeroBig fresh && negb (isContract holder));
    destruct (string_dec a holder) as [->|N];
    auto using get_set_eq, get_set_neq, get_delete_eq, get_delete_neq.
Qed.

(** Addresses of the fresh computation are overwritten or deleted, the
    others are carried over. *)
Lemma get_mergeHolders holders existingHolders a :
  NoDup (Obj.keys holders) ->
  Obj.get string_dec (merge existingHolders holders) a
  = match Obj.get string_dec holders a with
    | Some fresh => merged contractType isContract a fresh
    | None => Obj.get string_dec existingHolders a
    end.
Proof.
  revert existingHolders.
  induction holders as [|[h b] r IH]; intros existingHolders ND.
  - reflexivity.
  - simpl in ND. inversion ND as [|? ? NI ND']; subst.
    change (merge existingHolders ((h, b) :: r))
      with (merge (mergeHolder contractType isContract existingHolders (h, b)) r).
    rewrite IH by exact ND'. rewrite get_mergeHolder. cbn [Obj.get].
    destruct (string_dec a h) as [->|N]; auto.
    assert (G : Obj.get string_dec r h = None)
      by (apply get_None_notin; exact NI).
    rewrite G. reflexivity.
Qed.

Lemma NoDup_keys_mergeHolders holders existingHolders :
  NoDup (Obj.keys existingHolders) ->
  NoDup (Obj.keys (merge existingHolders holders)).
Proof.
  revert existingHolders.
  induction holders as [|[h b] r IH]; intros existingHolders ND.
  - exact ND.
  - change (merge existingHolders ((h, b) :: r))
      with (merge (mergeHolder contractType isContract existingHolders (h, b)) r).
    apply IH. unfold mergeHolder.
    destruct (strictNeqZeroBig b && negb (isContract h));
      auto using NoDup_keys_set, NoDup_keys_delete.
Qed.

(** A state that already holds what the merge decides is left as it is. *)
Lemma mergeHolders_settled holders existingHolders :
  (forall h b, In (h, b) holders ->
     Obj.get string_dec existingHolders h = merged contractType isContract h b) ->
  merge existingHolders holders = existingHolders.
Proof.
  induction holders as [|[h b] r IH]; intros S.
  - reflexivity.
  - assert (E : mergeHolder contractType isContract existingHolders (h, b)
                = existingHolders).
    { specialize (S h b (or_introl eq_refl)). unfold merged in S.
      unfold mergeHolder.
      destruct (strictNeqZeroBig b && negb (isContract h)).
      - apply set_same. exact S.
      - apply delete_absent. exact S. }
    change (merge existingHolders ((h, b) :: r))
      with (merge (mergeHolder contractType isContract existingHolders (h, b)) r).
    rewrite E. apply IH.
    intros h' b' I. apply S. right. exact I.
Qed.
End MergeFacts.

(** C9. Merge idempotence: merging the same fresh computation a second time
    into the list the first merge produced gives that list again.  The key
    lists have no repetition, as the keys of an object. *)
Theorem C9_merge_idempotent (parseFloat : balance -> Q)
    (contractType : ContractType) (isContract : address -> bool)
    (prior : holdersObj) (fresh : list (address * amount)) :
  NoDup (Obj.keys prior) ->
  NoDup (Obj.keys fresh) ->
  mergeAndSort parseFloat contractType isContract
    (mergeAndSort parseFloat contractType isContract prior fresh) fresh
  = mergeAndSort parseFloat contractType isContract prior fresh.
Proof.
  intros NP NF. unfold mergeAndSort.
  set (M := mergeHolders contractType isContract prior fresh).
  assert (NM : NoDup (Obj.keys M)) by (apply NoDup_keys_mergeHolders; exact NP).
  rewrite (mergeHolders_settled contractType isContract fresh
             (sortHolders parseFloat M)).
  - apply sortHolders_idempotent.
  - intros h b I.
    rewrite <- (get_perm M (sortHolders parseFloat M) h NM)
      by (symmetry; apply sortHolders_perm).
    unfold M. rewrite get_mergeHolders by exact NF.
    rewrite (in_get_NoDup string_dec fresh h b NF I). reflexivity.
Qed.

Lemma C9_merge_idempotent_witness :
  let prior := [("0xA1", StrB "2.000000000000000000");
                ("0xB2", StrB "1.000000000000000000")] in
  let fresh := [("0xB2", BigIntV 0); ("0xC3", BigIntV 3000000000000000000)] in
  mergeAndSort parseFloatExact ERC20 (fun _ => false)
    (mergeAndSort parseFloatExact ERC20 (fun _ => false) prior fresh) fresh
  = mergeAndSort parseFloatExact ERC20 (fun _ => false) prior fresh
  /\ mergeAndSort parseFloatExact ERC20 (fun _ => false) prior fresh
     = [("0xC3", StrB "3.000000000000000000");
        ("0xA1", StrB "2.000000000000000000")].
Proof.
  split.
  - apply C9_merge_idempotent.
    + repeat constructor; simpl; intuition discriminate.
    + repeat constructor; simpl; intuition discriminate.
  - vm_compute. reflexivity.
Defined.

(** The merge overwrites: for an address present both in the previous
    snapshot and in the fresh computation, the persisted balance is the
    formatted amount of the fresh range alone when that amount is nonzero
    and the address is not a contract, and the address is dropped
    otherwise; the previous balance does not enter the result. *)
Lemma merge_overwrites (parseFloat : balance -> Q)
    (contractType : ContractType) (isContract : address -> bool)
    (existingHolders : balancesOf) (fresh : list (address * amount))
    (a : address) (previous : Z) (v : amount) :
  NoDup (Obj.keys existingHolders) ->
  NoDup (Obj.keys fresh) ->
  Obj.get string_dec existingHolders a = Some previous ->
  Obj.get string_dec fresh a = Some v ->
  Obj.get string_dec
    (mergeAndSort parseFloat contractType isContract
       (formatExisting contractType existingHolders) fresh) a
  = if strictNeqZeroBig v && negb (isContract a)
    then Some (formatHolder contractType v)
    else None.
Proof.
  intros NE NF _ GF. unfold mergeAndSort.
  set (M := mergeHolders contractType isContract
              (formatExisting contractType existingHolders) fresh).
  assert (NM : NoDup (Obj.keys M)).
  { apply NoDup_keys_mergeHolders. rewrite keys_formatExisting. exact NE. }
  rewrite <- (get_perm M (sortHolders parseFloat M) a NM)
    by (symmetry; apply sortHolders_perm).
  unfold M. rewrite get_mergeHolders by exact NF. rewrite GF. reflexivity.
Qed.

(** C1, the code at the failing input. The previous snapshot holds 10
    tokens for 0xA1 (the mint of block 60) and was taken at block 100; 5
    more tokens are minted to 0xA1 in block 120.  The resumed run loads the
    10 tokens, computes the change +5 over the blocks 100..150 and writes
    5 tokens: the loaded balance is overwritten, not added to.  The
    balance of the whole history is 15 tokens, and the run with
    [--refresh] on the same file and chain writes 15. *)
Theorem C1_resumed_run_writes_the_delta :
  loadHolders [("0xA1", StrB "10.000000000000000000")]
  = Some [("0xA1", 10000000000000000000)]
  /\ runLedger (accumulationRun false) ERC20 (Some 100) 150
     = Some [("0xA1", BigIntV 5000000000000000000)]
  /\ main parseFloatExact (accumulationRun false)
     = mkRun [(EvTransfer, (100, 150))]
         (Exit0 (mkSnapshot [("0xA1", StrB "5.000000000000000000")] 150
                   (Some 50) "TKN"))
  /\ cumulativeBalances (accumulationRun false)
     = [("0xA1", 15000000000000000000)]
  /\ main parseFloatExact (accumulationRun true)
     = mkRun [(EvTransfer, (50, 150))]
         (Exit0 (mkSnapshot [("0xA1", StrB "15.000000000000000000")] 150
                   (Some 50) "TKN")).
Proof. repeat split; vm_compute; reflexivity. Qed.

(** ** The sort of the persisted list *)

(** C4 (as the code has it). The persisted list is descending by parsed
    balance in the weak sense: of two adjacent entries the earlier one has a
    parsed balance greater than or equal to the later one's; entries with
    equal parsed balances keep their order from before the sort, and the
    sort only reorders. *)
Theorem C4_sorted_descending_stable (parseFloat : balance -> Q)
    (existingHolders : holdersObj) :
  Sorted (fun x y => (parseFloat (snd y) <= parseFloat (snd x))%Q)
    (sortHolders parseFloat existingHolders)
  /\ (forall q : Q,
        filter (fun x => Qeq_bool (parseFloat (snd x)) q)
          (sortHolders parseFloat existingHolders)
        = filter (fun x => Qeq_bool (parseFloat (snd x)) q) existingHolders)
  /\ Permutation (sortHolders parseFloat existingHolders) existingHolders.
Proof.
  split; [|split].
  - apply StronglySorted_Sorted. apply sortHolders_descending.
  - intros q. apply sortHolders_stable.
  - apply sortHolders_perm.
Qed.

(** C4, counterexample. Two holders with the same balance are adjacent in
    the written list, and neither balance strictly exceeds the other. *)
Lemma C4_counterexample :
  sortHolders parseFloatExact [("0xA1", NumB 1); ("0xB2", NumB 1)]
  = [("0xA1", NumB 1); ("0xB2", NumB 1)]
  /\ ~ Sorted (fun x y => (parseFloatExact (snd y) < parseFloatExact (snd x))%Q)
         (sortHolders parseFloatExact [("0xA1", NumB 1); ("0xB2", NumB 1)]).
Proof.
  split; [vm_compute; reflexivity|].
  change (sortHolders parseFloatExact [("0xA1", NumB 1); ("0xB2", NumB 1)])
    with [("0xA1", NumB 1); ("0xB2", NumB 1)].
  intros S. inversion S as [|? ? _ H]; subst.
  inversion H as [|? ? L]; subst.
  vm_compute in L. discriminate.
Qed.

(** ** What a ledger returns is an object with nonzero counts *)

Lemma NoDup_keys_bump (f : Z -> Z) (b : balancesOf) who :
  NoDup (Obj.keys b) ->
  NoDup (Obj.keys
    (let b' := if falsy (sget b who) then sset b who 0 else b in
     sset b' who (f (orZero (sget b' who))))).
Proof.
  intros ND. cbv zeta. apply NoDup_keys_set.
  destruct (falsy (sget b who)); auto using NoDup_keys_set.
Qed.

Lemma NoDup_keys_applyTransfer b ev :
  NoDup (Obj.keys b) -> NoDup (Obj.keys (applyTransfer b ev)).
Proof.
  intros ND. unfold applyTransfer.
  assert (ND1 : NoDup (Obj.keys
            (if isZeroAddress (t_from ev) then b
             else debit b (t_from ev) (t_value ev)))).
  { destruct (isZeroAddress (t_from ev)); auto.
    apply (NoDup_keys_bump (fun x => x - t_value ev)). exact ND. }
  destruct (isZeroAddress (t_to ev)); auto.
  apply (NoDup_keys_bump (fun x => x + t_value ev)). exact ND1.
Qed.

Lemma NoDup_keys_fold {E : Type} (step : balancesOf -> E -> balancesOf) :
  (forall b e, NoDup (Obj.keys b) -> NoDup (Obj.keys (step b e))) ->
  forall l b, NoDup (Obj.keys b) -> NoDup (Obj.keys (fold_left step l b)).
Proof.
  intros P l. induction l as [|e r IH]; intros b ND; simpl; auto.
Qed.

Lemma NoDup_keys_getERC20Holders l : NoDup (Obj.keys (getERC20Holders l)).
Proof.
  apply NoDup_keys_fold; [exact NoDup_keys_applyTransfer | constructor].
Qed.

Lemma NoDup_keys_getERC721Holders l : NoDup (Obj.keys (getERC721Holders l)).
Proof.
  apply NoDup_keys_fold; [|constructor].
  intros b e. apply (NoDup_keys_bump (fun x => x + 1)).
Qed.

Lemma NoDup_keys_holdersOfBalances b : NoDup (Obj.keys (holdersOfBalances b)).
Proof.
  apply NoDup_keys_fold; [|constructor].
  intros h [a inner]. unfold sumAddress. apply NoDup_keys_fold.
  intros h' e. apply (NoDup_keys_bump (fun x => x + snd e)).
Qed.

Lemma counts_positive l a n :
  sget (getERC721Holders l) a = Some n -> 1 <= n.
Proof.
  unfold getERC721Holders.
  generalize (map snd (ownEntries (tokenOwnersOf l))). intros owners.
  assert (P : forall h : balancesOf,
             (forall a n, sget h a = Some n -> 1 <= n) ->
             forall a n, sget (fold_left countOwner owners h) a = Some n -> 1 <= n).
  { induction owners as [|o r IH]; intros h H; simpl; auto.
    apply IH. intros a' n'. rewrite get_countOwner.
    destruct (string_dec a' o) as [->|N]; [|apply H].
    intros [= <-]. destruct (sget h o) as [z|] eqn:G; simpl; [|lia].
    specialize (H o z G). lia. }
  apply P. simpl. discriminate.
Qed.

Lemma keys_asBigInts o : Obj.keys (asBigInts o) = Obj.keys o.
Proof. unfold asBigInts, Obj.keys. rewrite map_map. reflexivity. Qed.

Lemma keys_asNumbers o : Obj.keys (asNumbers o) = Obj.keys o.
Proof. unfold asNumbers, Obj.keys. rewrite map_map. reflexivity. Qed.

Lemma get_asBigInts o a :
  Obj.get string_dec (asBigInts o) a = option_map BigIntV (sget o a).
Proof.
  induction o as [|[k z] r IH]; simpl; auto. destruct (string_dec a k); auto.
Qed.

Lemma get_asNumbers o a :
  Obj.get string_dec (asNumbers o) a = option_map NumberV (sget o a).
Proof.
  induction o as [|[k z] r IH]; simpl; auto. destruct (string_dec a k); auto.
Qed.

Lemma runLedger_NoDup env contractType fromBlock currentBlock fresh :
  runLedger env contractType fromBlock currentBlock = Some fresh ->
  NoDup (Obj.keys fresh).
Proof.
  destruct contractType; simpl.
  - intros [= <-]. rewrite keys_asBigInts. apply NoDup_keys_getERC20Holders.
  - intros [= <-]. rewrite keys_asNumbers. apply NoDup_keys_getERC721Holders.
  - unfold getERC1155Holders.
    destruct (balances1155Of _ _); simpl; [|discriminate].
    intros [= <-]. rewrite keys_asBigInts. apply NoDup_keys_holdersOfBalances.
Qed.

(** On the values a ledger returns, [balance !== 0n] tells whether the
    balance is zero. *)
Lemma runLedger_nonzero env contractType fromBlock currentBlock fresh a v :
  runLedger env contractType fromBlock currentBlock = Some fresh ->
  Obj.get string_dec fresh a = Some v ->
  strictNeqZeroBig v = negb (intOf v =? 0).
Proof.
  destruct contractType; simpl.
  - intros [= <-]. rewrite get_asBigInts.
    destruct (sget _ a); simpl; [intros [= <-]; reflexivity | discriminate].
  - intros [= <-]. rewrite get_asNumbers.
    destruct (sget _ a) as [n|] eqn:G; simpl; [|discriminate].
    intros [= <-]. simpl. apply counts_positive in G.
    symmetry. apply negb_true_iff. apply Z.eqb_neq. lia.
  - unfold getERC1155Holders.
    destruct (balances1155Of _ _); simpl; [|discriminate].
    intros [= <-]. rewrite get_asBigInts.
    destruct (sget _ a); simpl; [intros [= <-]; reflexivity | discriminate].
Qed.

Lemma loadHolders_from_None l : fold_left loadHolder l None = None.
Proof. induction l; simpl; auto. Qed.

Lemma loadHolders_NoDup l o : loadHolders l = Some o -> NoDup (Obj.keys o).
Proof.
  unfold loadHolders.
  assert (P : forall acc, NoDup (Obj.keys acc) ->
                fold_left loadHolder l (Some acc) = Some o ->
                NoDup (Obj.keys o)).
  { induction l as [|[a b] r IH]; intros acc ND; simpl.
    - intros [= <-]. exact ND.
    - destruct (loadBalance b) as [z|].
      + apply IH. apply NoDup_keys_set. exact ND.
      + rewrite loadHolders_from_None. discriminate. }
  apply P. constructor.
Qed.

Lemma resolveStart_NoDup env existingHolders fromBlock contractDeploymentBlock :
  resolveStart env = Some (existingHolders, fromBlock, contractDeploymentBlock) ->
  NoDup (Obj.keys existingHolders).
Proof.
  unfold resolveStart.
  destruct (snapshotFile env) as [data|].
  - destruct (loadHolders (holders data)) as [o|] eqn:L; [|discriminate].
    apply loadHolders_NoDup in L.
    destruct (deploymentBlock data) as [d|].
    + destruct (d =? 0); [intros [= <- _ _]; exact L|].
      destruct (verifyDeploymentBlock env d); intros [= <- _ _]; exact L.
    + intros [= <- _ _]. exact L.
  - intros [= <- _ _]. constructor.
Qed.

(** ** The holder invariant of a run *)

Lemma merged_Some contractType isContract a v b :
  merged contractType isContract a v = Some b ->
  strictNeqZeroBig v = true /\ isContract a = false
  /\ b = formatHolder contractType v.
Proof.
  unfold merged.
  destruct (strictNeqZeroBig v); simpl; [|discriminate].
  destruct (isContract a); simpl; [discriminate|].
  intros [= <-]. auto.
Qed.

(** What decides the holder list of a run: when the entries loaded from
    the previous snapshot are nonzero and not contracts, an address is
    written if and only if the amount the merge step decides on is nonzero
    and the address is not classified as a contract; every entry written
    is a non-contract address with the formatting of a nonzero amount. *)
Lemma written_iff_merge_amount (parseFloat : balance -> Q) (env : Env)
    (tokenSym : string) (existingHolders : balancesOf)
    (fromBlock contractDeploymentBlock : option Z)
    (contractType : ContractType) (fresh : list (address * amount)) :
  tokenSymbol env = Some tokenSym ->
  resolveStart env = Some (existingHolders, fromBlock, contractDeploymentBlock) ->
  detectedType env = Some contractType ->
  runLedger env contractType fromBlock (getCurrentBlock env) = Some fresh ->
  (forall a z, Obj.get string_dec existingHolders a = Some z ->
     z <> 0 /\ isContract env a = false) ->
  exists snap,
    outcome (main parseFloat env) = Exit0 snap
    /\ (forall a,
          In a (map fst (holders snap))
          <-> runBalance existingHolders fresh a <> 0
              /\ isContract env a = false)
    /\ (forall a b,
          In (a, b) (holders snap) ->
          isContract env a = false
          /\ exists v, intOf v <> 0 /\ b = formatHolder contractType v).
Proof.
  intros HT HR HD HL HP.
  pose proof (resolveStart_NoDup _ _ _ _ HR) as NE.
  pose proof (runLedger_NoDup _ _ _ _ _ HL) as NF.
  unfold main. rewrite HT, HR, HD, HL. cbn [outcome].
  eexists. split; [reflexivity|]. cbn [holders]. unfold mergeAndSort.
  set (M := mergeHolders contractType (isContract env)
              (formatExisting contractType existingHolders) fresh).
  assert (NM : NoDup (Obj.keys M)).
  { apply NoDup_keys_mergeHolders. rewrite keys_formatExisting. exact NE. }
  assert (GM : forall a, Obj.get string_dec M a
             = match Obj.get string_dec fresh a with
               | Some v => merged contractType (isContract env) a v
               | None =>
                   option_map (fun z => formatHolder contractType (BigIntV z))
                     (Obj.get string_dec existingHolders a)
               end).
  { intros a. unfold M. rewrite get_mergeHolders by exact NF.
    rewrite get_formatExisting. reflexivity. }
  split.
  - intros a.
    assert (I : In a (map fst (sortHolders parseFloat M))
                <-> Obj.get string_dec M a <> None).
    { rewrite <- (in_keys_get string_dec M a). unfold Obj.keys.
      split; apply Permutation_in, Permutation_map;
        [|symmetry]; apply sortHolders_perm. }
    rewrite I, GM. unfold runBalance.
    destruct (Obj.get string_dec fresh a) as [v|] eqn:GF.
    + rewrite <- Z.eqb_neq, <- negb_true_iff.
      rewrite <- (runLedger_nonzero _ _ _ _ _ _ _ HL GF).
      unfold merged.
      destruct (strictNeqZeroBig v), (isContract env a); simpl;
        intuition congruence.
    + destruct (Obj.get string_dec existingHolders a) as [z|] eqn:GE; simpl.
      * destruct (HP a z GE). intuition congruence.
      * intuition congruence.
  - intros a b I.
    apply (Permutation_in _ (sortHolders_perm parseFloat M)) in I.
    apply (in_get_NoDup string_dec M a b NM) in I. rewrite GM in I.
    destruct (Obj.get string_dec fresh a) as [v|] eqn:GF.
    + apply merged_Some in I. destruct I as (S & C & ->).
      split; [exact C|]. exists v. split; [|reflexivity].
      rewrite (runLedger_nonzero _ _ _ _ _ _ _ HL GF) in S.
      apply negb_true_iff, Z.eqb_neq in S. exact S.
    + destruct (Obj.get string_dec existingHolders a) as [z|] eqn:GE;
        simpl in I; [|discriminate].
      injection I as <-. destruct (HP a z GE) as [NZ C].
      split; [exact C|]. exists (BigIntV z). split; [exact NZ | reflexivity].
Qed.

(** C3, the code at the failing input. The previous snapshot, taken at
    block 100, holds the one holder 0xA1 with 10 tokens and satisfies the
    invariant; no address is a contract.

    - 0xA1 sends its 10 tokens to 0xB2 in block 120: its balance is 0, and
      the resumed run writes it with the change -10 of the fetched range.
    - 0xA1 sends 5 tokens to 0xB2 in block 120 and gets them back in block
      121: its balance is 10, the change of the fetched range is 0, and the
      resumed run drops it.

    The run with [--refresh] on the same file and chain writes neither
    the zero balance nor drops the holder. *)
Theorem C3_resumed_run_breaks_the_invariant :
  cumulativeBalances (drainRun false)
  = [("0xA1", 0); ("0xB2", 10000000000000000000)]
  /\ outcome (main parseFloatExact (drainRun false))
     = Exit0 (mkSnapshot
                [("0xB2", StrB "10.000000000000000000");
                 ("0xA1", StrB "-10.000000000000000000")] 150 (Some 50) "TKN")
  /\ outcome (main parseFloatExact (drainRun true))
     = Exit0 (mkSnapshot [("0xB2", StrB "10.000000000000000000")] 150
                (Some 50) "TKN")
  /\ cumulativeBalances (returnRun false)
     = [("0xA1", 10000000000000000000); ("0xB2", 0)]
  /\ outcome (main parseFloatExact (returnRun false))
     = Exit0 (mkSnapshot [] 150 (Some 50) "TKN")
  /\ outcome (main parseFloatExact (returnRun true))
     = Exit0 (mkSnapshot [("0xA1", StrB "10.000000000000000000")] 150
                (Some 50) "TKN").
Proof. repeat split; vm_compute; reflexivity. Qed.

(** ** Where a run starts fetching *)

Lemma windowsFrom_first i toBlock :
  i <= toBlock ->
  windowsFrom i toBlock
  = (i, Z.min (i + batchSize - 1) toBlock) :: windowsFrom (i + batchSize) toBlock.
Proof.
  intros L. rewrite windowsFrom_equation_1.
  destruct (Z_le_dec i toBlock); [reflexivity | contradiction].
Qed.

Lemma windowsFrom_none i toBlock : toBlock < i -> windowsFrom i toBlock = [].
Proof.
  intros L. rewrite windowsFrom_equation_1.
  destruct (Z_le_dec i toBlock); [lia | reflexivity].
Qed.

(** A resumed run starts at the checkpoint itself. *)
Lemma resolveStart_resume env data existingHolders d :
  snapshotFile env = Some data ->
  loadHolders (holders data) = Some existingHolders ->
  deploymentBlock data = Some d ->
  d <> 0 ->
  verifyDeploymentBlock env d = true ->
  refreshData env = false ->
  resolveStart env
  = Some (existingHolders, Some (lastCheckedBlock data), Some d).
Proof.
  intros HS HL HD NZ HV HR. unfold resolveStart.
  rewrite HS, HL, HD, HV, HR.
  destruct (d =? 0) eqn:E; [apply Z.eqb_eq in E; contradiction | reflexivity].
Qed.

(** The first query of a resumed run asks for the checkpoint block again. *)
Lemma resume_first_query parseFloat env data existingHolders d tokenSym :
  tokenSymbol env = Some tokenSym ->
  snapshotFile env = Some data ->
  loadHolders (holders data) = Some existingHolders ->
  deploymentBlock data = Some d ->
  d <> 0 ->
  verifyDeploymentBlock env d = true ->
  refreshData env = false ->
  detectedType env = Some ERC20 ->
  lastCheckedBlock data <= latestBlockNumber env ->
  exists rest,
    queried (main parseFloat env)
    = (EvTransfer,
       (lastCheckedBlock data,
        Z.min (lastCheckedBlock data + batchSize - 1) (latestBlockNumber env)))
      :: rest.
Proof.
  intros HT HS HL HD NZ HV HR HTy LE. unfold main.
  rewrite HT, (resolveStart_resume _ _ _ _ HS HL HD NZ HV HR), HTy.
  cbn [runLedger ledgerQueries queried]. unfold queriesOf, getCurrentBlock.
  cbn [toNumber]. rewrite (windowsFrom_first _ _ LE). cbn [map].
  eexists. reflexivity.
Qed.

(** C2, the code at the failing input. With [lastCheckedBlock] = 100, a
    verified deployment block and no refresh, the one window queried is
    100..150: block 100 is fetched again, and the transfer of block 100 is
    among the events replayed. *)
Theorem C2_resume_refetches_checkpoint :
  resolveStart checkpointRun
  = Some ([("0xA1", 3)], Some 100, Some 50)
  /\ queried (main parseFloatExact checkpointRun) = [(EvTransfer, (100, 150))]
  /\ getPastEvents checkpointRun EvTransfer (Some 100) 150
     = [LogTransfer (mkTransfer ZeroAddress "0xA1" 3);
        LogTransfer (mkTransfer ZeroAddress "0xA1" 2)].
Proof. repeat split; vm_compute; reflexivity. Qed.

(** ** A scan that finds nothing *)

(** Without a previous snapshot, a scan that finds no deployment block
    does not stop the run: the events are fetched window by window from
    block 0 (the null start) up to the current block and, unless the
    ledger itself fails, the snapshot is written, with a null deployment
    block. *)
Lemma not_found_run_continues (parseFloat : balance -> Q) (env : Env)
    (tokenSym : string) (contractType : ContractType) :
  tokenSymbol env = Some tokenSym ->
  snapshotFile env = None ->
  getDeploymentBlock env = None ->
  detectedType env = Some contractType ->
  queried (main parseFloat env)
  = ledgerQueries contractType (Some 0) (getCurrentBlock env)
  /\ outcome (main parseFloat env)
     = match runLedger env contractType (Some 0) (getCurrentBlock env) with
       | Some holders =>
           Exit0 (mkSnapshot
                    (mergeAndSort parseFloat contractType (isContract env)
                       [] holders)
                    (getCurrentBlock env) None tokenSym)
       | None => Exit1
       end.
Proof.
  intros HT HS HG HD. unfold main, resolveStart. rewrite HT, HS, HG, HD.
  change (ledgerQueries contractType None (getCurrentBlock env))
    with (ledgerQueries contractType (Some 0) (getCurrentBlock env)).
  change (runLedger env contractType None (getCurrentBlock env))
    with (runLedger env contractType (Some 0) (getCurrentBlock env)).
  destruct (runLedger env contractType (Some 0) (getCurrentBlock env));
    split; reflexivity.
Qed.

(** The same with a previous snapshot whose deployment block does not
    verify: the events are fetched from the starting block. *)
Lemma unverified_run_continues (parseFloat : balance -> Q) (env : Env)
    (tokenSym : string) (contractType : ContractType) (data : Snapshot)
    (existingHolders : balancesOf) (d : Z) :
  tokenSymbol env = Some tokenSym ->
  snapshotFile env = Some data ->
  loadHolders (holders data) = Some existingHolders ->
  deploymentBlock data = Some d ->
  d <> 0 ->
  verifyDeploymentBlock env d = false ->
  getDeploymentBlock env = None ->
  detectedType env = Some contractType ->
  queried (main parseFloat env)
  = ledgerQueries contractType (Some (startingBlock env)) (getCurrentBlock env)
  /\ outcome (main parseFloat env)
     = match runLedger env contractType (Some (startingBlock env))
               (getCurrentBlock env) with
       | Some holders =>
           Exit0 (mkSnapshot
                    (mergeAndSort parseFloat contractType (isContract env)
                       (formatExisting contractType existingHolders) holders)
                    (getCurrentBlock env) None tokenSym)
       | None => Exit1
       end.
Proof.
  intros HT HS HL HD NZ HV HG HTy. unfold main, resolveStart.
  rewrite HT, HS, HL, HD, HV, HG, HTy.
  replace (d =? 0) with false by (symmetry; apply Z.eqb_neq; exact NZ).
  destruct (runLedger env contractType (Some (startingBlock env))
              (getCurrentBlock env)); split; reflexivity.
Qed.

(** C8, the code at the failing input. No prior snapshot supplies a
    verified deployment block and the scan finds nothing, yet the run goes
    on, fetches events and writes a snapshot with a null deployment block:

    - without a snapshot file, two windows are fetched from block 0;
    - with a snapshot whose deployment block does not verify, the window
      60..150 is fetched from the starting block.

    The two lookups next to it are checked: a run without token
    information returns before any query, and one without a contract type
    ends with an error before any query. *)
Theorem C8_not_found_run_fetches_and_writes :
  snapshotFile notFoundRun = None
  /\ getDeploymentBlock notFoundRun = None
  /\ main parseFloatExact notFoundRun
     = mkRun [(EvTransfer, (0, 999)); (EvTransfer, (1000, 1500))]
         (Exit0 (mkSnapshot [("0xA1", StrB "5.000000000000000000")] 1500
                   None "TKN"))
  /\ verifyDeploymentBlock unverifiedRun 50 = false
  /\ getDeploymentBlock unverifiedRun = None
  /\ main parseFloatExact unverifiedRun
     = mkRun [(EvTransfer, (60, 150))]
         (Exit0 (mkSnapshot
                   [("0xA1", StrB "10.000000000000000000");
                    ("0xB2", StrB "5.000000000000000000")] 150 None "TKN"))
  /\ main parseFloatExact noTokenRun = mkRun [] ReturnedFalse
  /\ main parseFloatExact noTypeRun = mkRun [] Exit1.
Proof. repeat split; vm_compute; reflexivity. Qed.

(** ** Reloading persisted balances *)

Lemma digit_not_dot c : digitOf c <> None -> Ascii.eqb c "." = false.
Proof.
  intros D. destruct (Ascii.eqb_spec c "."); auto. subst. contradiction D.
  reflexivity.
Qed.

Lemma digit_not_sign c :
  digitOf c <> None -> Ascii.eqb c "-" = false /\ Ascii.eqb c "+" = false.
Proof.
  intros D. split.
  - destruct (Ascii.eqb_spec c "-"); auto. subst. contradiction D. reflexivity.
  - destruct (Ascii.eqb_spec c "+"); auto. subst. contradiction D. reflexivity.
Qed.

Lemma allDigits_app s t : allDigits s -> allDigits t -> allDigits (s ++ t).
Proof. induction s; simpl; intuition. Qed.

Lemma allDigits_zeros n : allDigits (zeros n).
Proof. induction n; simpl; auto. split; auto. discriminate. Qed.

Lemma allDigits_take n s : allDigits s -> allDigits (take n s).
Proof.
  revert s. induction n; intros [|c r]; simpl; intuition.
Qed.

Lemma allDigits_uint d : allDigits (NilEmpty.string_of_uint d).
Proof. induction d; simpl; auto; split; auto; discriminate. Qed.

Lemma take_drop n s : (take n s ++ drop n s)%string = s.
Proof.
  revert s. induction n; intros [|c r]; simpl; auto. rewrite IHn. reflexivity.
Qed.

Lemma replaceDot_insert s t :
  allDigits s -> replaceDot (s ++ String "." t) = (s ++ t)%string.
Proof.
  induction s as [|c r IH]; simpl; auto.
  intros [D A]. rewrite (digit_not_dot c D), (IH A). reflexivity.
Qed.

Lemma replaceDot_digits s : allDigits s -> replaceDot s = s.
Proof.
  induction s as [|c r IH]; simpl; auto.
  intros [D A]. rewrite (digit_not_dot c D), (IH A). reflexivity.
Qed.

(** Stripping the point from a formatted value gives the padded digits
    back. *)
Lemma strip_format s :
  allDigits s ->
  replaceDot (sliceButLast 18 s ++ "." ++ sliceLast 18 s) = s.
Proof.
  intros A. unfold sliceButLast, sliceLast.
  change ("." ++ drop (String.length s - 18) s)%string
    with (String "." (drop (String.length s - 18) s)).
  rewrite replaceDot_insert by (apply allDigits_take; exact A).
  apply take_drop.
Qed.

Lemma uint_of_zeros n s :
  NilEmpty.uint_of_string (zeros n ++ s)
  = option_map (Nat.iter n Decimal.D0) (NilEmpty.uint_of_string s).
Proof.
  induction n as [|n IH]; simpl.
  - destruct (NilEmpty.uint_of_string s); reflexivity.
  - rewrite IH. destruct (NilEmpty.uint_of_string s); reflexivity.
Qed.

Lemma of_uint_zeros n d : Z.of_uint (Nat.iter n Decimal.D0 d) = Z.of_uint d.
Proof. induction n as [|n IH]; simpl; auto. Qed.

(** Leading zeros do not change what [BigInt] reads from digits. *)
Lemma BigInt_of_padded n d :
  d <> Decimal.Nil ->
  BigInt_of_string (zeros n ++ NilEmpty.string_of_uint d) = Some (Z.of_uint d).
Proof.
  intros ND.
  assert (A : allDigits (zeros n ++ NilEmpty.string_of_uint d))
    by (apply allDigits_app; [apply allDigits_zeros | apply allDigits_uint]).
  assert (U : NilEmpty.uint_of_string (zeros n ++ NilEmpty.string_of_uint d)
              = Some (Nat.iter n Decimal.D0 d))
    by (rewrite uint_of_zeros, NilEmpty.usu; reflexivity).
  destruct (zeros n ++ NilEmpty.string_of_uint d)%string as [|c r] eqn:E.
  - destruct n; [destruct d; simpl in E; congruence | discriminate].
  - unfold BigInt_of_string. destruct A as [D _].
    destruct (digit_not_sign c D) as [-> ->].
    unfold NilZero.uint_of_string. rewrite U. simpl.
    rewrite of_uint_zeros. reflexivity.
Qed.

Lemma toString_nonneg z :
  0 <= z ->
  exists d, d <> Decimal.Nil /\ BigInt_toString z = NilEmpty.string_of_uint d
            /\ Z.of_uint d = z.
Proof.
  intros L. unfold BigInt_toString.
  pose proof (DecimalZ.of_to z) as R.
  destruct z as [|p|p]; [| |lia].
  - exists (Decimal.D0 Decimal.Nil). repeat split. discriminate.
  - simpl in *. exists (Pos.to_uint p).
    assert (N : Pos.to_uint p <> Decimal.Nil).
    { intros E. rewrite E in R. discriminate. }
    repeat split; auto.
    unfold NilZero.string_of_uint. destruct (Pos.to_uint p); congruence.
Qed.

(** A nonnegative balance reloads to itself. *)
Lemma reload_nonneg z :
  0 <= z -> loadBalance (StrB (formatBigIntToDecimal z)) = Some z.
Proof.
  intros L. destruct (toString_nonneg z L) as (d & ND & S & V).
  unfold loadBalance, formatBigIntToDecimal, padStart. rewrite S.
  rewrite strip_format
    by (apply allDigits_app; [apply allDigits_zeros | apply allDigits_uint]).
  rewrite BigInt_of_padded by exact ND. rewrite V. reflexivity.
Qed.

(** Rounding to a double keeps an integer below 2^53 and never takes a
    larger one below 2^53. *)
Lemma roundHalfEven_ge a d : a / d <= roundHalfEven a d.
Proof.
  unfold roundHalfEven.
  destruct (2 * (a mod d) <? d); [lia|].
  destruct (d <? 2 * (a mod d)); [lia|].
  destruct (Z.even (a / d)); lia.
Qed.

Lemma Number_of_BigInt_small c :
  Z.abs c < 2 ^ 53 -> Number_of_BigInt c = c.
Proof.
  intros B. unfold Number_of_BigInt.
  replace (Z.abs c <? 2 ^ 53) with true; [reflexivity|].
  symmetry. apply Z.ltb_lt. exact B.
Qed.

Lemma Number_of_BigInt_large c :
  2 ^ 53 <= c -> 2 ^ 53 <= Number_of_BigInt c.
Proof.
  intros B. unfold Number_of_BigInt.
  assert (P : 0 < c) by lia.
  rewrite (Z.abs_eq c) by lia. rewrite (Z.sgn_pos c P).
  replace (c <? 2 ^ 53) with false by (symmetry; apply Z.ltb_ge; exact B).
  assert (L : 53 <= Z.log2 c) by (apply Z.log2_le_pow2; lia).
  set (e := Z.log2 c - 52).
  assert (E : 1 <= e) by (unfold e; lia).
  assert (Q : 2 ^ 52 <= c / 2 ^ e).
  { apply Z.div_le_lower_bound; [apply Z.pow_pos_nonneg; lia|].
    rewrite <- Z.pow_add_r by lia.
    replace (e + 52) with (Z.log2 c) by (unfold e; lia).
    apply Z.log2_spec. exact P. }
  pose proof (roundHalfEven_ge c (2 ^ e)) as R.
  assert (T : 2 ^ 1 <= 2 ^ e) by (apply Z.pow_le_mono_r; lia).
  change (2 ^ 53) with (2 ^ 52 * 2 ^ 1).
  rewrite Z.mul_1_l.
  apply Z.mul_le_mono_nonneg; lia.
Qed.

Lemma Number_of_BigInt_inv c x :
  0 <= c -> 0 <= x < 2 ^ 53 -> Number_of_BigInt c = x -> c = x.
Proof.
  intros C X E. destruct (Z_lt_le_dec c (2 ^ 53)) as [S|L].
  - rewrite Number_of_BigInt_small in E by (rewrite Z.abs_eq; lia). exact E.
  - apply Number_of_BigInt_large in L. lia.
Qed.

(** Below 2^53 the numeral printed for a Number is the number itself. *)
Lemma shortestFrom_exact x e : 0 <= x < 2 ^ 53 -> shortestFrom x e = x.
Proof.
  intros X. induction e as [|e IH]; [reflexivity|].
  cbn [shortestFrom]. set (p := 10 ^ Z.of_nat (S e)).
  assert (P : 0 < p) by (unfold p; apply Z.pow_pos_nonneg; lia).
  assert (Q : 0 <= x / p) by (apply Z.div_pos; lia).
  assert (Lo : (Number_of_BigInt (x / p * p) =? x) = true -> x / p * p = x).
  { intros E. apply Z.eqb_eq in E.
    apply (Number_of_BigInt_inv _ x); [nia | exact X | exact E]. }
  assert (Hi : (Number_of_BigInt (x / p * p + p) =? x) = true
               -> x / p * p + p = x).
  { intros E. apply Z.eqb_eq in E.
    apply (Number_of_BigInt_inv _ x); [nia | exact X | exact E]. }
  destruct (Number_of_BigInt (x / p * p) =? x);
    destruct (Number_of_BigInt (x / p * p + p) =? x); cbn [andb].
  - specialize (Lo eq_refl). specialize (Hi eq_refl). lia.
  - exact (Lo eq_refl).
  - exact (Hi eq_refl).
  - exact IH.
Qed.

Lemma shortestRoundTrip_exact n : Z.abs n < 2 ^ 53 -> shortestRoundTrip n = n.
Proof.
  intros B. unfold shortestRoundTrip.
  rewrite shortestFrom_exact by lia. rewrite Z.mul_comm. apply Z.abs_sgn.
Qed.

(** Above 2^53 the digits printed are not always the number's own: the
    doubles 2^56 and 2^64. *)
Lemma Number_toString_above_2_53 :
  Number_toString (2 ^ 56) = "72057594037927940"
  /\ Number_toString (2 ^ 64) = "18446744073709552000"
  /\ loadBalance (NumB (2 ^ 64)) = Some 18446744073709552000.
Proof. repeat split; vm_compute; reflexivity. Qed.

(** A count below 2^53 reloads to itself. *)
Lemma reload_count n :
  0 <= n < 2 ^ 53 -> loadBalance (NumB n) = Some n.
Proof.
  intros [L U]. unfold loadBalance, Number_toString.
  replace (Z.abs n <? 10 ^ 21) with true by (symmetry; apply Z.ltb_lt; lia).
  rewrite shortestRoundTrip_exact by lia.
  destruct (toString_nonneg n L) as (d & ND & S & V). rewrite S.
  rewrite replaceDot_digits by apply allDigits_uint.
  rewrite <- V. apply (BigInt_of_padded 0 d ND).
Qed.

(** C10, the code at the failing input. The balance -5 is formatted with
    the zeros of the padding in front of its sign; the run persists that
    string, it does not read back as a BigInt, and the next run stops at
    the load of the snapshot. *)
Theorem C10_negative_balance_does_not_reload :
  formatBigIntToDecimal (-5) = "0.0000000000000000-5"
  /\ loadBalance (StrB (formatBigIntToDecimal (-5))) = None
  /\ outcome (main parseFloatExact debitRun)
     = Exit0 (mkSnapshot
                [("0xB2", StrB "0.000000000000000005");
                 ("0xA1", StrB "0.0000000000000000-5")] 150 (Some 50) "TKN")
  /\ main parseFloatExact debitRerun = mkRun [] Rejected.
Proof. repeat split; vm_compute; reflexivity. Qed.

(** Where the round trip does hold: a nonnegative fungible balance and a
    count that is a double below 2^53 are written, read back and written
    again unchanged. *)
Lemma reformat_nonneg z :
  0 <= z ->
  option_map (fun x => formatHolder ERC20 (BigIntV x))
    (loadBalance (formatHolder ERC20 (BigIntV z)))
  = Some (formatHolder ERC20 (BigIntV z)).
Proof.
  intros L. cbn [formatHolder intOf]. rewrite (reload_nonneg z L). reflexivity.
Qed.

Lemma reformat_count (contractType : ContractType) n :
  contractType <> ERC20 ->
  0 <= n < 2 ^ 53 ->
  option_map (fun x => formatHolder contractType (BigIntV x))
    (loadBalance (NumB n))
  = Some (NumB n).
Proof.
  intros T [L U]. rewrite reload_count by lia.
  assert (E : Number_of_BigInt n = n).
  { unfold Number_of_BigInt.
    replace (Z.abs n <? 2 ^ 53) with true; auto.
    symmetry. apply Z.ltb_lt. lia. }
  destruct contractType; simpl; rewrite ?E; congruence.
Qed.

(** * Further properties of the engine *)

(** ** The windows of the fetcher *)

Lemma windowsFrom_measure (P : Z -> Z -> Prop) :
  (forall i toBlock, toBlock < i -> P i toBlock) ->
  (forall i toBlock, i <= toBlock -> P (i + batchSize) toBlock -> P i toBlock) ->
  forall i toBlock, P i toBlock.
Proof.
  intros Hn Hs i toBlock.
  assert (G : forall n i, (Z.to_nat (toBlock - i + 1) <= n)%nat -> P i toBlock).
  { induction n as [|n IH]; intros j L.
    - apply Hn. lia.
    - destruct (Z_le_dec j toBlock) as [LE|GT]; [|apply Hn; lia].
      apply Hs; [exact LE|]. apply IH. unfold batchSize. lia. }
  apply (G (Z.to_nat (toBlock - i + 1))). lia.
Qed.

Lemma windows_within i toBlock w :
  In w (windowsFrom i toBlock) ->
  i <= fst w /\ fst w <= snd w /\ snd w <= toBlock
  /\ snd w - fst w + 1 <= batchSize.
Proof.
  revert w. pattern i, toBlock. apply windowsFrom_measure; clear i toBlock.
  - intros i toBlock L w. rewrite windowsFrom_none by exact L. intros [].
  - intros i toBlock L IH w. rewrite windowsFrom_first by exact L.
    intros [<-|I]; simpl.
    + unfold batchSize. lia.
    + specialize (IH w I). unfold batchSize in *. lia.
Qed.

Lemma windows_count i toBlock b :
  List.length (filter (inWindow b) (windowsFrom i toBlock))
  = if (i <=? b) && (b <=? toBlock) then 1%nat else 0%nat.
Proof.
  pattern i, toBlock. apply windowsFrom_measure; clear i toBlock.
  - intros i toBlock L. rewrite windowsFrom_none by exact L. simpl.
    destruct (i <=? b) eqn:A, (b <=? toBlock) eqn:B; simpl; auto.
    apply Z.leb_le in A, B. lia.
  - intros i toBlock L IH. rewrite windowsFrom_first by exact L.
    cbn [filter]. unfold inWindow at 1. cbn [fst snd].
    unfold batchSize in *.
    destruct (i <=? b) eqn:A, (b <=? Z.min (i + 1000 - 1) toBlock) eqn:B;
      cbn [andb List.length]; rewrite IH;
      destruct (i + 1000 <=? b) eqn:C, (b <=? toBlock) eqn:D; cbn [andb];
      try reflexivity;
      rewrite ?Z.leb_le, ?Z.leb_gt in *; lia.
Qed.

(** X1. The fetch windows tile the requested range: every window lies inside
    [fromBlock..toBlock] and spans at most 1000 blocks, every block of the
    range is in exactly one window and a block outside it is in none. *)
Theorem windows_tile_the_range (fromBlock toBlock : Z) :
  (forall w, In w (windowsFrom fromBlock toBlock) ->
     fromBlock <= fst w /\ fst w <= snd w /\ snd w <= toBlock
     /\ snd w - fst w + 1 <= 1000)
  /\ (forall b,
        List.length (filter (inWindow b) (windowsFrom fromBlock toBlock))
        = if (fromBlock <=? b) && (b <=? toBlock) then 1%nat else 0%nat).
Proof.
  split.
  - intros w I. apply (windows_within _ _ _ I).
  - intros b. apply windows_count.
Qed.

(** X2. The number of queries sent for one event name. *)
Theorem windows_number (fromBlock toBlock : Z) :
  fromBlock <= toBlock ->
  Z.of_nat (List.length (windowsFrom fromBlock toBlock))
  = (toBlock - fromBlock) / 1000 + 1.
Proof.
  pattern fromBlock, toBlock. apply windowsFrom_measure;
    clear fromBlock toBlock.
  - intros i toBlock L1 L2. lia.
  - intros i toBlock L IH _. rewrite windowsFrom_first by exact L.
    cbn [List.length]. unfold batchSize in *.
    destruct (Z_le_dec (i + 1000) toBlock) as [LE|GT].
    + rewrite Nat2Z.inj_succ, (IH LE).
      replace (toBlock - i) with ((toBlock - (i + 1000)) + 1 * 1000) by lia.
      rewrite Z.div_add by lia. lia.
    + rewrite windowsFrom_none by lia. cbn [List.length].
      rewrite Z.div_small by lia. reflexivity.
Qed.

Lemma windows_number_witness :
  Z.of_nat (List.length (windowsFrom 100 3150)) = (3150 - 100) / 1000 + 1.
Proof. apply windows_number. lia. Defined.

(** ** What the fetcher returns *)

Lemma queryFilter_inRange env eventName w :
  queryFilter env eventName w
  = map snd (filter (inRange eventName (fst w) (snd w)) (chainLogs env)).
Proof. reflexivity. Qed.

Lemma EventName_eqb_eq a b : EventName_eqb a b = true <-> a = b.
Proof. destruct a, b; simpl; split; congruence. Qed.

(** X3. A log is returned exactly when the chain has it, under the asked
    name, in a block of the asked range. *)
Theorem getPastEvents_complete (env : Env) (eventName : EventName)
    (fromBlock : option Z) (toBlock : Z) (l : Log) :
  In l (getPastEvents env eventName fromBlock toBlock)
  <-> exists b, In (b, l) (chainLogs env)
                /\ toNumber fromBlock <= b <= toBlock
                /\ eventNameOf l = eventName.
Proof.
  unfold getPastEvents. rewrite in_flat_map. split.
  - intros (w & Iw & Il). rewrite queryFilter_inRange in Il.
    apply in_map_iff in Il. destruct Il as ([b l'] & E & If). simpl in E. subst l'.
    apply filter_In in If. destruct If as [Ic R].
    unfold inRange in R. cbn [fst snd] in R.
    apply andb_true_iff in R. destruct R as [R N].
    apply andb_true_iff in R. destruct R as [R1 R2].
    apply Z.leb_le in R1, R2. apply EventName_eqb_eq in N.
    pose proof (windows_within _ _ _ Iw).
    exists b. repeat split; auto; lia.
  - intros (b & Ic & R & N).
    assert (C : List.length
                  (filter (inWindow b) (windowsFrom (toNumber fromBlock) toBlock))
                = 1%nat).
    { rewrite windows_count.
      replace (toNumber fromBlock <=? b) with true by (symmetry; apply Z.leb_le; lia).
      replace (b <=? toBlock) with true by (symmetry; apply Z.leb_le; lia).
      reflexivity. }
    destruct (filter (inWindow b) (windowsFrom (toNumber fromBlock) toBlock))
      as [|w r] eqn:F; [discriminate|].
    assert (Iw : In w (filter (inWindow b)
                         (windowsFrom (toNumber fromBlock) toBlock)))
      by (rewrite F; left; reflexivity).
    apply filter_In in Iw. destruct Iw as [Iw W].
    exists w. split; [exact Iw|].
    rewrite queryFilter_inRange. apply in_map_iff. exists (b, l). split; auto.
    apply filter_In. split; auto.
    unfold inWindow in W. unfold inRange. cbn [fst snd]. rewrite W.
    apply EventName_eqb_eq in N. rewrite N. reflexivity.
Qed.

Lemma filter_range_split eventName lo mid hi (logs : list (Z * Log)) :
  StronglySorted (fun x y => fst x <= fst y) logs ->
  lo <= mid + 1 -> mid <= hi ->
  filter (inRange eventName lo hi) logs
  = (filter (inRange eventName lo mid) logs
     ++ filter (inRange eventName (mid + 1) hi) logs)%list.
Proof.
  intros S L1 L2. induction S as [|x r S IH F]; [reflexivity|].
  cbn [filter]. rewrite IH.
  destruct (inRange eventName lo hi x) eqn:A,
           (inRange eventName lo mid x) eqn:B,
           (inRange eventName (mid + 1) hi x) eqn:C;
    try reflexivity;
    try (exfalso; unfold inRange in A, B, C;
         destruct (EventName_eqb (eventNameOf (snd x)) eventName);
         rewrite ?andb_true_r, ?andb_false_r in *; try discriminate;
         rewrite ?andb_true_iff, ?andb_false_iff, ?Z.leb_le, ?Z.leb_gt in *;
         lia).
  (* [x] belongs to the upper part: nothing after it is in the lower one *)
  assert (K : mid < fst x).
  { unfold inRange in C. rewrite !andb_true_iff, Z.leb_le in C. lia. }
  assert (E : filter (inRange eventName lo mid) r = []).
  { clear IH S A B C. induction r as [|y r' IHr]; [reflexivity|].
    inversion F as [|? ? Fy Fr]; subst.
    cbn [filter]. unfold inRange at 1.
    replace (fst y <=? mid) with false by (symmetry; apply Z.leb_gt; lia).
    rewrite andb_false_r. cbn [andb]. apply IHr; auto. }
  rewrite E. reflexivity.
Qed.

Lemma filter_range_empty eventName lo hi (logs : list (Z * Log)) :
  hi < lo -> filter (inRange eventName lo hi) logs = [].
Proof.
  intros L. induction logs as [|x r IH]; [reflexivity|].
  cbn [filter]. unfold inRange at 1.
  destruct (lo <=? fst x) eqn:A, (fst x <=? hi) eqn:B; cbn [andb]; auto.
  apply Z.leb_le in A, B. lia.
Qed.



(** ** The deployment-block scan *)

Lemma scanBlocks_spec deployed n b :
  match scanBlocks deployed n b with
  | Some r =>
      b <= r < b + Z.of_nat n /\ deployed r = true
      /\ forall k, b <= k < r -> deployed k = false
  | None => forall k, b <= k < b + Z.of_nat n -> deployed k = false
  end.
Proof.
  revert b. induction n as [|n IH]; intros b.
  - simpl. intros k L. lia.
  - cbn [scanBlocks]. destruct (deployed b) eqn:D.
    + repeat split; try lia. exact D.
    + specialize (IH (b + 1)). destruct (scanBlocks deployed n (b + 1)) as [r|].
      * destruct IH as (R & T & N). repeat split; try lia; auto.
        intros k L. destruct (Z.eq_dec k b) as [->|NE]; auto. apply N. lia.
      * intros k L. destruct (Z.eq_dec k b) as [->|NE]; auto. apply IH. lia.
Qed.

(** X5. The scan returns the first block, from the starting block up to the
    latest one, in which the contract was deployed, and nothing exactly
    when no block of that range deployed it. *)
Theorem getDeploymentBlock_first (env : Env) :
  match getDeploymentBlock env with
  | Some r =>
      startingBlock env <= r <= latestBlockNumber env
      /\ deployedIn env r = true
      /\ forall k, startingBlock env <= k < r -> deployedIn env k = false
  | None =>
      forall k, startingBlock env <= k <= latestBlockNumber env ->
                deployedIn env k = false
  end.
Proof.
  unfold getDeploymentBlock.
  pose proof (scanBlocks_spec (deployedIn env)
                (Z.to_nat (latestBlockNumber env - startingBlock env + 1))
                (startingBlock env)) as H.
  destruct (scanBlocks _ _ _) as [r|].
  - destruct H as (R & T & N). repeat split; auto; lia.
  - intros k L. apply H. lia.
Qed.

(** ** The fungible ledger in closed form *)

Lemma zero_untouched ev : touches ZeroAddress ev = false.
Proof.
  unfold touches, isZeroAddress.
  rewrite (String.eqb_sym ZeroAddress (t_from ev)),
          (String.eqb_sym ZeroAddress (t_to ev)).
  destruct (String.eqb (t_from ev) ZeroAddress),
           (String.eqb (t_to ev) ZeroAddress); reflexivity.
Qed.

Lemma zero_never_touched l : existsb (touches ZeroAddress) l = false.
Proof.
  induction l as [|ev r IH]; simpl; auto. rewrite zero_untouched. exact IH.
Qed.

(** X6. The balance the fungible ledger gives an address is what it received
    minus what it sent; an address is present exactly when it is the
    nonzero sender or recipient of some event, and the zero address is
    never present. *)
Theorem getERC20Holders_net_flow (transferEvents : list TransferArgs) :
  (forall a,
     Obj.get string_dec (getERC20Holders transferEvents) a
     = if existsb (touches a) transferEvents
       then Some (netFlow a transferEvents)
       else None)
  /\ Obj.get string_dec (getERC20Holders transferEvents) ZeroAddress = None.
Proof.
  assert (G : forall a,
             Obj.get string_dec (getERC20Holders transferEvents) a
             = if existsb (touches a) transferEvents
               then Some (netFlow a transferEvents)
               else None).
  { intros a. unfold getERC20Holders. rewrite get_fold_applyTransfer.
    destruct (existsb (touches a) transferEvents); reflexivity. }
  split; [exact G|]. rewrite G, zero_never_touched. reflexivity.
Qed.

Lemma sumValues_set {K : Type} (eq_dec : forall x y : K, {x = y} + {x <> y})
    (o : Obj.t (K := K) (V := Z)) k v :
  sumValues (Obj.set eq_dec o k v)
  = sumValues o - orZero (Obj.get eq_dec o k) + v.
Proof.
  unfold sumValues.
  induction o as [|[k' v'] r IH]; simpl; [lia|].
  destruct (eq_dec k k'); simpl; [lia | rewrite IH; lia].
Qed.

Lemma sumValues_bump (f : Z -> Z) (b : balancesOf) who :
  sumValues
    (let b' := if falsy (sget b who) then sset b who 0 else b in
     sset b' who (f (orZero (sget b' who))))
  = sumValues b - orZero (sget b who) + f (orZero (sget b who)).
Proof.
  cbv zeta. rewrite sumValues_set.
  destruct (falsy (sget b who)) eqn:F; [|reflexivity].
  rewrite sumValues_set, get_set_eq. rewrite (falsy_orZero _ F).
  cbn [orZero]. unfold address. lia.
Qed.

Lemma sumValues_credit b who v : sumValues (credit b who v) = sumValues b + v.
Proof.
  pose proof (sumValues_bump (fun x => x + v) b who) as H.
  change (sumValues (credit b who v)
          = sumValues b - orZero (sget b who) + (orZero (sget b who) + v)) in H.
  rewrite H. lia.
Qed.

Lemma sumValues_debit b who v : sumValues (debit b who v) = sumValues b - v.
Proof.
  pose proof (sumValues_bump (fun x => x - v) b who) as H.
  change (sumValues (debit b who v)
          = sumValues b - orZero (sget b who) + (orZero (sget b who) - v)) in H.
  rewrite H. lia.
Qed.

Lemma sumValues_applyTransfer b ev :
  sumValues (applyTransfer b ev) = sumValues b + supplyChange ev.
Proof.
  unfold applyTransfer, supplyChange.
  destruct (isZeroAddress (t_from ev)), (isZeroAddress (t_to ev));
    rewrite ?sumValues_credit, ?sumValues_debit; lia.
Qed.

(** X7. Conservation: the balances of the fungible ledger add up to what was
    minted minus what was burned in the replayed events. *)
Theorem getERC20Holders_conserves (transferEvents : list TransferArgs) :
  sumValues (getERC20Holders transferEvents)
  = fold_right (fun ev acc => supplyChange ev + acc) 0 transferEvents.
Proof.
  unfold getERC20Holders.
  assert (G : forall b,
             sumValues (fold_left applyTransfer transferEvents b)
             = sumValues b
               + fold_right (fun ev acc => supplyChange ev + acc) 0 transferEvents).
  { induction transferEvents as [|ev r IH]; intros b; simpl; [lia|].
    rewrite IH, sumValues_applyTransfer. lia. }
  rewrite G. simpl. lia.
Qed.

(** ** The single-owner ledger in closed form *)

Lemma partition_perm {A : Type} (p : A -> bool) (l : list A) :
  Permutation (filter p l ++ filter (fun x => negb (p x)) l) l.
Proof.
  induction l as [|x r IH]; simpl; auto.
  destruct (p x); simpl.
  - constructor. exact IH.
  - symmetry. apply Permutation_cons_app. symmetry. exact IH.
Qed.

Lemma ownEntries_perm {V : Type} (o : Obj.t (K := Z) (V := V)) :
  Permutation (ownEntries o) o.
Proof.
  unfold ownEntries.
  rewrite (stableSort_perm (fun a b : Z * V => fst a <? fst b)).
  apply (partition_perm (fun e : Z * V => isArrayIndex (fst e))).
Qed.

Lemma get_fold_countOwner owners (h : balancesOf) a :
  sget (fold_left countOwner owners h) a
  = match count_occ string_dec owners a with
    | O => sget h a
    | S n => Some (orZero (sget h a) + Z.of_nat (S n))
    end.
Proof.
  revert h. induction owners as [|o r IH]; intros h; [reflexivity|].
  cbn [fold_left count_occ]. rewrite IH, get_countOwner.
  destruct (string_dec o a) as [->|N].
  - destruct (string_dec a a); [|congruence].
    destruct (count_occ string_dec r a); f_equal; simpl orZero; lia.
  - destruct (string_dec a o); [congruence|]. reflexivity.
Qed.

Lemma owners_nonzero l id o :
  Obj.get Z.eq_dec (tokenOwnersOf l) id = Some o -> o <> ZeroAddress.
Proof.
  unfold tokenOwnersOf.
  assert (G : forall t : ownersOf,
             (forall id o, Obj.get Z.eq_dec t id = Some o -> o <> ZeroAddress) ->
             forall id o, Obj.get Z.eq_dec (fold_left applyOwnership l t) id = Some o ->
                          o <> ZeroAddress).
  { induction l as [|ev r IH]; intros t H; [exact H|].
    cbn [fold_left]. apply IH. intros id' o'. unfold applyOwnership.
    assert (D : forall id o,
               Obj.get Z.eq_dec
                 (if isZeroAddress (t_from ev) then t
                  else Obj.delete Z.eq_dec t (t_value ev)) id = Some o ->
               o <> ZeroAddress).
    { intros i x. destruct (isZeroAddress (t_from ev)); [apply H|].
      destruct (Z.eq_dec i (t_value ev)) as [->|N].
      - rewrite get_delete_eq. discriminate.
      - rewrite get_delete_neq by exact N. apply H. }
    destruct (isZeroAddress (t_to ev)) eqn:Z; [apply D|].
    destruct (Z.eq_dec id' (t_value ev)) as [->|N].
    - rewrite get_set_eq. intros [= <-]. apply String.eqb_neq. exact Z.
    - rewrite get_set_neq by exact N. apply D. }
  apply G. simpl. discriminate.
Qed.

Lemma count_ownEntries (o : ownersOf) a :
  count_occ string_dec (map snd (ownEntries o)) a
  = count_occ string_dec (map snd o) a.
Proof.
  apply (proj1 (Permutation_count_occ string_dec _ _)).
  apply Permutation_map, ownEntries_perm.
Qed.

Lemma NoDup_keys_tokenOwnersOf l : NoDup (Obj.keys (tokenOwnersOf l)).
Proof.
  unfold tokenOwnersOf.
  assert (G : forall t : ownersOf, NoDup (Obj.keys t) ->
                NoDup (Obj.keys (fold_left applyOwnership l t))).
  { induction l as [|ev r IH]; intros t N; [exact N|].
    cbn [fold_left]. apply IH. unfold applyOwnership.
    destruct (isZeroAddress (t_from ev)), (isZeroAddress (t_to ev));
      auto using NoDup_keys_set, NoDup_keys_delete. }
  apply G. constructor.
Qed.

(** X8. The count the single-owner ledger gives an address is the number of
    tokens whose final owner it is; an address that owns nothing is absent,
    and the zero address is never counted. *)
Theorem getERC721Holders_counts (transferEvents : list TransferArgs) :
  (forall a,
     Obj.get string_dec (getERC721Holders transferEvents) a
     = match count_occ string_dec
               (map snd (tokenOwnersOf transferEvents)) a with
       | O => None
       | S n => Some (Z.of_nat (S n))
       end)
  /\ Obj.get string_dec (getERC721Holders transferEvents) ZeroAddress = None.
Proof.
  assert (G : forall a,
     Obj.get string_dec (getERC721Holders transferEvents) a
     = match count_occ string_dec
               (map snd (tokenOwnersOf transferEvents)) a with
       | O => None
       | S n => Some (Z.of_nat (S n))
       end).
  { intros a. unfold getERC721Holders.
    rewrite get_fold_countOwner, count_ownEntries.
    destruct (count_occ _ _ a); [reflexivity|].
    f_equal; cbn [Obj.get orZero]; lia. }
  split; [exact G|]. rewrite G.
  destruct (count_occ string_dec (map snd (tokenOwnersOf transferEvents))
              ZeroAddress) eqn:C; [reflexivity|].
  exfalso.
  assert (I : In ZeroAddress (map snd (tokenOwnersOf transferEvents))).
  { apply (count_occ_In string_dec). lia. }
  apply in_map_iff in I. destruct I as ([id o] & E & I). simpl in E. subst o.
  apply (in_get_NoDup Z.eq_dec) in I; [|apply NoDup_keys_tokenOwnersOf].
  apply (owners_nonzero transferEvents id ZeroAddress I). reflexivity.
Qed.

(** ** The multi-token ledger: malformed batches and the collapse of ids *)

Lemma fold_applyBatch_None batches : fold_left applyBatch batches None = None.
Proof. induction batches; simpl; auto. Qed.

Lemma fold_applyBatch_throws batches balances :
  fold_left applyBatch batches (Some balances) = None
  <-> Exists namesAnId batches.
Proof.
  revert balances. induction batches as [|ev r IH]; intros balances.
  - simpl. split; [discriminate | intros E; inversion E].
  - cbn [fold_left]. rewrite applyBatch_ids. unfold namesAnId at 1.
    destruct (b_ids ev) as [|id ids] eqn:I.
    + rewrite IH. split; [intros E; right; exact E|].
      intros E. inversion E as [? ? S|]; subst; auto.
      unfold namesAnId in S. congruence.
    + rewrite fold_applyBatch_None. split; [|reflexivity].
      intros _. left. unfold namesAnId. rewrite I. discriminate.
Qed.

Lemma shortBatch_namesAnId event : shortBatch event -> namesAnId event.
Proof.
  unfold shortBatch, namesAnId. destruct (b_ids event); simpl; [lia | discriminate].
Qed.

(** X10. The multi-token ledger throws exactly when some batch event names
    at least one token id, whatever values the event carries: the first id
    of the first such batch stops the replay.  Single transfers and
    batches without ids never make it throw. *)
Theorem getERC1155Holders_throws
    (singleTransferEvents : list TransferSingleArgs)
    (batchTransferEvents : list TransferBatchArgs) :
  getERC1155Holders singleTransferEvents batchTransferEvents = None
  <-> Exists namesAnId batchTransferEvents.
Proof.
  unfold getERC1155Holders, balances1155Of.
  rewrite <- fold_applyBatch_throws
    with (balances := fold_left applySingle singleTransferEvents []).
  destruct (fold_left applyBatch _ _); simpl; split; congruence.
Qed.

Lemma set_nonempty {K V : Type} (eq_dec : forall x y : K, {x = y} + {x <> y})
    (o : Obj.t (K := K) (V := V)) k v :
  Obj.set eq_dec o k v <> [].
Proof. destruct o as [|[k' v'] r]; simpl; [|destruct (eq_dec k k')]; discriminate. Qed.

Lemma sumValues_bumpId sign inner id v :
  sumValues (bumpId sign inner id v) = sumValues inner + sign * v.
Proof.
  unfold bumpId. cbv zeta. rewrite sumValues_set.
  destruct (falsy (Obj.get Z.eq_dec inner id)) eqn:F; [|lia].
  rewrite sumValues_set, get_set_eq. rewrite (falsy_orZero _ F).
  cbn [orZero]. lia.
Qed.

Lemma get_move1155 sign balances who id v a :
  Obj.get string_dec (move1155 sign balances who id v) a
  = if string_dec a who
    then Some (bumpId sign (orEmpty (Obj.get string_dec balances who)) id v)
    else Obj.get string_dec balances a.
Proof.
  unfold move1155. cbv zeta.
  destruct (string_dec a who) as [->|N].
  - rewrite get_set_eq. f_equal. unfold bumpId.
    destruct (Obj.get string_dec balances who) eqn:G.
    + rewrite G. reflexivity.
    + rewrite get_set_eq. reflexivity.
  - rewrite get_set_neq by exact N.
    destruct (Obj.get string_dec balances who); [reflexivity|].
    apply get_set_neq. exact N.
Qed.

Lemma NoDup_keys_move1155 sign balances who id v :
  NoDup (Obj.keys balances) ->
  NoDup (Obj.keys (move1155 sign balances who id v)).
Proof.
  intros ND. unfold move1155. cbv zeta. apply NoDup_keys_set.
  destruct (Obj.get string_dec balances who); auto using NoDup_keys_set.
Qed.

Lemma populated_move1155 sign balances who id v :
  populated balances -> populated (move1155 sign balances who id v).
Proof.
  intros P a inner. rewrite get_move1155.
  destruct (string_dec a who); [|apply P].
  intros [= <-]. unfold bumpId. apply set_nonempty.
Qed.

Lemma sameTotals_move1155 sign balances b who id v :
  sameTotals balances b ->
  sameTotals (move1155 sign balances who id v)
    (let b' := if falsy (sget b who) then sset b who 0 else b in
     sset b' who ((fun x => x + sign * v) (orZero (sget b' who)))).
Proof.
  intros S a. rewrite get_move1155, (get_bump (fun x => x + sign * v)).
  destruct (string_dec a who) as [->|N]; [|apply S].
  cbn [option_map]. rewrite sumValues_bumpId. f_equal. f_equal.
  specialize (S who). destruct (Obj.get string_dec balances who) as [inner|];
    simpl in S; rewrite <- S; reflexivity.
Qed.

Lemma transferOne_invariant balances b from to id v :
  NoDup (Obj.keys balances) /\ populated balances /\ sameTotals balances b ->
  NoDup (Obj.keys (transferOne balances from to id v))
  /\ populated (transferOne balances from to id v)
  /\ sameTotals (transferOne balances from to id v)
       (applyTransfer b (mkTransfer from to v)).
Proof.
  intros (ND & P & S). unfold transferOne, applyTransfer. cbn [t_from t_to t_value].
  assert (H1 :
    NoDup (Obj.keys (if isZeroAddress from then balances
                     else move1155 (-1) balances from id v))
    /\ populated (if isZeroAddress from then balances
                  else move1155 (-1) balances from id v)
    /\ sameTotals (if isZeroAddress from then balances
                   else move1155 (-1) balances from id v)
         (if isZeroAddress from then b else debit b from v)).
  { destruct (isZeroAddress from); [auto|].
    repeat split.
    - apply NoDup_keys_move1155; exact ND.
    - apply populated_move1155; exact P.
    - intros a. pose proof (sameTotals_move1155 (-1) balances b from id v S a) as H.
      rewrite H. unfold debit. cbv zeta beta.
      replace (orZero
                 (sget (if falsy (sget b from) then sset b from 0 else b) from)
               + -1 * v)
        with (orZero
                (sget (if falsy (sget b from) then sset b from 0 else b) from)
              - v) by lia.
      reflexivity. }
  destruct H1 as (ND1 & P1 & S1).
  destruct (isZeroAddress to); [auto|].
  repeat split.
  - apply NoDup_keys_move1155; exact ND1.
  - apply populated_move1155; exact P1.
  - intros a.
    pose proof (sameTotals_move1155 1 _ _ to id v S1 a) as H.
    rewrite H. unfold credit. cbv zeta beta.
    match goal with
    | |- context [?x + 1 * v] => replace (x + 1 * v) with (x + v) by lia
    end.
    reflexivity.
Qed.

Lemma singles_invariant singles balances b :
  NoDup (Obj.keys balances) /\ populated balances /\ sameTotals balances b ->
  NoDup (Obj.keys (fold_left applySingle singles balances))
  /\ populated (fold_left applySingle singles balances)
  /\ sameTotals (fold_left applySingle singles balances)
       (fold_left applyTransfer (map forgetId singles) b).
Proof.
  revert balances b. induction singles as [|ev r IH]; intros balances b H;
    [exact H|].
  cbn [fold_left map]. apply IH. unfold applySingle, forgetId.
  apply transferOne_invariant. exact H.
Qed.

Lemma sumValues_perm {K : Type} (o1 o2 : Obj.t (K := K) (V := Z)) :
  Permutation o1 o2 -> sumValues o1 = sumValues o2.
Proof. unfold sumValues. induction 1; simpl; lia. Qed.

Lemma get_fold_sumId a es (h : balancesOf) a' :
  sget (fold_left (fun h e => sumId h a e) es h) a'
  = if string_dec a' a
    then match es with
         | [] => sget h a
         | _ => Some (orZero (sget h a) + sumValues es)
         end
    else sget h a'.
Proof.
  revert h. induction es as [|e r IH]; intros h.
  - simpl. destruct (string_dec a' a) as [->|N]; reflexivity.
  - cbn [fold_left]. rewrite IH.
    assert (G : forall x, sget (sumId h a e) x
                = if string_dec x a then Some (orZero (sget h a) + snd e)
                  else sget h x)
      by (intros x; apply (get_bump (fun y => y + snd e))).
    rewrite !G.
    destruct (string_dec a' a) as [->|N]; [|reflexivity].
    destruct (string_dec a a); [|congruence].
    unfold sumValues. destruct r; cbn [orZero fold_right]; f_equal; lia.
Qed.

Lemma get_holdersOfBalances_from (balances : balances1155) (h : balancesOf) a :
  NoDup (Obj.keys balances) ->
  (forall x inner, In (x, inner) balances -> inner <> []) ->
  sget (fold_left sumAddress balances h) a
  = match Obj.get string_dec balances a with
    | Some inner => Some (orZero (sget h a) + sumValues inner)
    | None => sget h a
    end.
Proof.
  revert h. induction balances as [|[x inner] r IH]; intros h ND P;
    [reflexivity|].
  simpl in ND. inversion ND as [|? ? NI ND']; subst.
  cbn [fold_left]. rewrite IH; [|exact ND'|intros y i I; apply (P y i); right; exact I].
  unfold sumAddress. cbn [fst snd]. rewrite !get_fold_sumId. cbn [Obj.get].
  destruct (string_dec a x) as [->|N]; [|reflexivity].
  assert (G : Obj.get string_dec r x = None) by (apply get_None_notin; exact NI).
  rewrite G.
  assert (NE : ownEntries inner <> []).
  { intros E. apply (P x inner (or_introl eq_refl)).
    apply Permutation_nil. rewrite <- E. apply ownEntries_perm. }
  rewrite (sumValues_perm _ _ (ownEntries_perm inner)).
  destruct (ownEntries inner); [congruence | reflexivity].
Qed.

Lemma fold_applyBatch_idle batches balances :
  Forall (fun ev => b_ids ev = []) batches ->
  fold_left applyBatch batches (Some balances) = Some balances.
Proof.
  induction batches as [|ev r IH]; intros F; [reflexivity|].
  inversion F as [|? ? N F']; subst.
  cbn [fold_left]. rewrite applyBatch_ids, N. apply IH. exact F'.
Qed.

(** X11. The collapse of ids: when no batch event names a token id (no
    batch at all, or empty ones), the ledger does not throw and the totals
    it returns are the balances the fungible ledger computes from the
    single transfers with their token ids forgotten: the same addresses
    are present, with the same amounts. *)
Theorem getERC1155Holders_collapse
    (singleTransferEvents : list TransferSingleArgs)
    (batchTransferEvents : list TransferBatchArgs) :
  Forall (fun ev => b_ids ev = []) batchTransferEvents ->
  exists holders,
    getERC1155Holders singleTransferEvents batchTransferEvents = Some holders
    /\ forall a,
         Obj.get string_dec holders a
         = Obj.get string_dec
             (getERC20Holders (map forgetId singleTransferEvents)) a.
Proof.
  intros F. unfold getERC1155Holders, balances1155Of.
  rewrite fold_applyBatch_idle by exact F.
  cbn [option_map]. eexists. split; [reflexivity|]. intros a.
  assert (I0 : NoDup (Obj.keys ([] : balances1155))
               /\ populated [] /\ sameTotals [] []).
  { repeat split.
    - constructor.
    - intros x inner. simpl. discriminate. }
  destruct (singles_invariant singleTransferEvents [] [] I0) as (ND & P & S).
  unfold holdersOfBalances. rewrite get_holdersOfBalances_from.
  - unfold getERC20Holders. rewrite <- (S a).
    destruct (Obj.get string_dec
                (fold_left applySingle singleTransferEvents []) a);
      cbn [option_map Obj.get orZero]; [f_equal; lia | reflexivity].
  - exact ND.
  - intros x inner I. apply (P x inner).
    apply in_get_NoDup; assumption.
Qed.

Lemma getERC1155Holders_collapse_witness :
  exists holders,
    getERC1155Holders
      [mkSingle ZeroAddress "0xA1" 7 4; mkSingle ZeroAddress "0xA1" 8 2;
       mkSingle "0xA1" "0xB2" 7 1]
      [mkBatch "0xA1" "0xB2" [] []] = Some holders
    /\ forall a,
         Obj.get string_dec holders a
         = Obj.get string_dec
             (getERC20Holders
                (map forgetId
                   [mkSingle ZeroAddress "0xA1" 7 4;
                    mkSingle ZeroAddress "0xA1" 8 2;
                    mkSingle "0xA1" "0xB2" 7 1]))
             a.
Proof.
  apply getERC1155Holders_collapse.
  repeat constructor.
Defined.

(** ** Digits and their values *)

Lemma digitOf_range c d : digitOf c = Some d -> 0 <= d <= 9.
Proof.
  unfold digitOf.
  destruct ((48 <=? Z.of_N (N_of_ascii c)) && (Z.of_N (N_of_ascii c) <=? 57))
    eqn:E; [|discriminate].
  intros [= <-]. apply andb_true_iff in E. destruct E as [A B].
  apply Z.leb_le in A, B. lia.
Qed.

Lemma readDigits_digits s acc n :
  allDigits s ->
  readDigits s acc n
  = (acc * 10 ^ Z.of_nat (String.length s) + valueOf s,
     (n + String.length s)%nat, EmptyString).
Proof.
  revert acc n. induction s as [|c r IH]; intros acc n A.
  - simpl. unfold valueOf. simpl. f_equal. f_equal; [lia | auto].
  - destruct A as [D A]. cbn [readDigits String.length].
    unfold valueOf. cbn [readDigits].
    destruct (digitOf c) as [d|]; [|congruence].
    rewrite !(IH _ _ A). cbn [fst].
    rewrite Nat2Z.inj_succ, Z.pow_succ_r by lia.
    f_equal. f_equal; [|lia]. ring.
Qed.

Lemma readDigits_app s t acc n :
  allDigits s ->
  readDigits (s ++ t) acc n
  = readDigits t (acc * 10 ^ Z.of_nat (String.length s) + valueOf s)
      (n + String.length s)%nat.
Proof.
  revert acc n. induction s as [|c r IH]; intros acc n A.
  - simpl. unfold valueOf. simpl. f_equal; lia.
  - destruct A as [D A]. cbn [append readDigits String.length].
    unfold valueOf. cbn [readDigits].
    destruct (digitOf c) as [d|]; [|congruence].
    rewrite (IH _ _ A), (readDigits_digits r (10 * 0 + d) 1 A). cbn [fst].
    rewrite Nat2Z.inj_succ, Z.pow_succ_r by lia.
    f_equal; [ring | lia].
Qed.

Lemma length_append s t :
  String.length (s ++ t) = (String.length s + String.length t)%nat.
Proof. induction s; simpl; auto. Qed.

Lemma valueOf_app s t :
  allDigits s -> allDigits t ->
  valueOf (s ++ t) = valueOf s * 10 ^ Z.of_nat (String.length t) + valueOf t.
Proof.
  intros A B. unfold valueOf at 1.
  rewrite (readDigits_app s t 0 0 A), (readDigits_digits t _ _ B).
  cbn [fst]. lia.
Qed.

Lemma valueOf_bounds s :
  allDigits s -> 0 <= valueOf s < 10 ^ Z.of_nat (String.length s).
Proof.
  induction s as [|c r IH]; intros A.
  - unfold valueOf. simpl. lia.
  - destruct A as [D A]. specialize (IH A).
    unfold valueOf. cbn [readDigits String.length].
    destruct (digitOf c) as [d|] eqn:E; [|congruence].
    rewrite (readDigits_digits r _ _ A). cbn [fst].
    apply digitOf_range in E.
    rewrite Nat2Z.inj_succ, Z.pow_succ_r by lia. nia.
Qed.

Lemma valueOf_zeros n : valueOf (zeros n) = 0.
Proof.
  induction n as [|n IH]; [reflexivity|].
  change (zeros (S n)) with ("0" ++ zeros n)%string.
  rewrite valueOf_app; [|simpl; split; [discriminate|exact I]|apply allDigits_zeros].
  rewrite IH. reflexivity.
Qed.

Lemma readDigits_uint_acc d acc n :
  fst (fst (readDigits (NilEmpty.string_of_uint d) (Z.pos acc) n))
  = Z.pos (Pos.of_uint_acc d acc).
Proof.
  revert acc n.
  induction d; intros acc n;
    cbn [NilEmpty.string_of_uint readDigits Pos.of_uint_acc];
    [reflexivity|..];
    match goal with
    | |- context [digitOf ?c] =>
        let v := eval vm_compute in (digitOf c) in
        change (digitOf c) with v
    end;
    cbv iota;
    match goal with
    | |- fst (fst (readDigits _ ?a _)) = Z.pos (Pos.of_uint_acc _ ?q) =>
        replace a with (Z.pos q) by lia
    end;
    apply IHd.
Qed.

Lemma readDigits_uint d n :
  fst (fst (readDigits (NilEmpty.string_of_uint d) 0 n)) = Z.of_uint d.
Proof.
  unfold Z.of_uint. revert n.
  induction d; intros n;
    cbn [NilEmpty.string_of_uint readDigits Pos.of_uint];
    [reflexivity|..];
    match goal with
    | |- context [digitOf ?c] =>
        let v := eval vm_compute in (digitOf c) in
        change (digitOf c) with v
    end;
    cbv iota;
    [apply IHd|..];
    match goal with
    | |- fst (fst (readDigits _ ?a _)) = Z.of_N (N.pos (Pos.of_uint_acc _ ?q)) =>
        change a with (Z.pos q)
    end;
    apply readDigits_uint_acc.
Qed.

Lemma valueOf_uint d : valueOf (NilEmpty.string_of_uint d) = Z.of_uint d.
Proof. apply readDigits_uint. Qed.

Lemma length_zeros n : String.length (zeros n) = n.
Proof. induction n; simpl; auto. Qed.

Lemma length_take n s : String.length (take n s) = Nat.min n (String.length s).
Proof. revert s. induction n; intros [|c r]; simpl; auto. Qed.

Lemma length_drop n s : String.length (drop n s) = (String.length s - n)%nat.
Proof. revert s. induction n; intros [|c r]; simpl; auto. Qed.

Lemma allDigits_drop n s : allDigits s -> allDigits (drop n s).
Proof. revert s. induction n; intros [|c r]; simpl; intuition. Qed.

Lemma length_padStart n s :
  String.length (padStart n s) = Nat.max n (String.length s).
Proof. unfold padStart. rewrite length_append, length_zeros. lia. Qed.

Lemma format_parts (z : Z) :
  0 <= z ->
  exists integerPart decimalPart,
    formatBigIntToDecimal z = (integerPart ++ "." ++ decimalPart)%string
    /\ allDigits integerPart /\ integerPart <> EmptyString
    /\ allDigits decimalPart /\ String.length decimalPart = 18%nat
    /\ valueOf integerPart = z / 10 ^ 18
    /\ valueOf decimalPart = z mod 10 ^ 18.
Proof.
  intros L. destruct (toString_nonneg z L) as (d & ND & S & V).
  unfold formatBigIntToDecimal. rewrite S.
  set (p := padStart 19 (NilEmpty.string_of_uint d)).
  assert (A : allDigits p)
    by (apply allDigits_app; [apply allDigits_zeros | apply allDigits_uint]).
  assert (Lp : (19 <= String.length p)%nat)
    by (unfold p; rewrite length_padStart; lia).
  assert (Vp : valueOf p = z).
  { unfold p, padStart.
    rewrite valueOf_app by (apply allDigits_zeros || apply allDigits_uint).
    rewrite valueOf_zeros, valueOf_uint, V. lia. }
  exists (sliceButLast 18 p), (sliceLast 18 p).
  assert (Ai : allDigits (sliceButLast 18 p)) by (apply allDigits_take; exact A).
  assert (Ad : allDigits (sliceLast 18 p)) by (apply allDigits_drop; exact A).
  assert (Ld : String.length (sliceLast 18 p) = 18%nat)
    by (unfold sliceLast; rewrite length_drop; lia).
  assert (E : valueOf (sliceButLast 18 p) * 10 ^ 18 + valueOf (sliceLast 18 p) = z).
  { transitivity (valueOf (sliceButLast 18 p ++ sliceLast 18 p)).
    - rewrite valueOf_app by assumption. rewrite Ld. reflexivity.
    - unfold sliceButLast, sliceLast. rewrite take_drop. exact Vp. }
  pose proof (valueOf_bounds _ Ad) as B. rewrite Ld in B.
  change (10 ^ Z.of_nat 18) with (10 ^ 18) in B.
  repeat split; auto.
  - intros N. unfold sliceButLast in N.
    apply (f_equal String.length) in N. rewrite length_take in N.
    simpl in N. lia.
  - apply Z.div_unique with (valueOf (sliceLast 18 p)); lia.
  - apply Z.mod_unique with (valueOf (sliceButLast 18 p)); lia.
Qed.

(** X12. For a nonnegative balance the formatted string is the whole tokens, a
    point and the 18 digits of the remainder: the part before the point
    writes [z / 10^18], the part after it writes [z mod 10^18]. *)
Theorem formatBigIntToDecimal_fixed_point (z : Z) :
  0 <= z ->
  exists integerPart decimalPart,
    formatBigIntToDecimal z = (integerPart ++ "." ++ decimalPart)%string
    /\ allDigits integerPart /\ integerPart <> EmptyString
    /\ allDigits decimalPart /\ String.length decimalPart = 18%nat
    /\ valueOf integerPart = z / 10 ^ 18
    /\ valueOf decimalPart = z mod 10 ^ 18.
Proof. apply format_parts. Qed.

Lemma formatBigIntToDecimal_fixed_point_witness :
  exists integerPart decimalPart,
    formatBigIntToDecimal 1500000000000000000000
    = (integerPart ++ "." ++ decimalPart)%string
    /\ allDigits integerPart /\ integerPart <> EmptyString
    /\ allDigits decimalPart /\ String.length decimalPart = 18%nat
    /\ valueOf integerPart = 1500000000000000000000 / 10 ^ 18
    /\ valueOf decimalPart = 1500000000000000000000 mod 10 ^ 18.
Proof. apply formatBigIntToDecimal_fixed_point. lia. Defined.

(** ** Which balances reload *)

Lemma nzhead_head u :
  match Decimal.nzhead u with Decimal.D0 _ => False | _ => True end.
Proof. induction u; simpl; auto. Qed.

Lemma to_uint_head p :
  match Pos.to_uint p with
  | Decimal.Nil | Decimal.D0 _ => False
  | _ => True
  end.
Proof.
  pose proof (DecimalPos.Unsigned.to_of (Pos.to_uint p)) as H.
  rewrite DecimalPos.Unsigned.of_to in H. simpl in H.
  pose proof (DecimalPos.Unsigned.to_uint_nonzero p) as NZ.
  pose proof (DecimalPos.Unsigned.to_uint_nonnil p) as NN.
  destruct (Pos.to_uint p) as [|u|u|u|u|u|u|u|u|u|u]; auto.
  rewrite DecimalFacts.unorm_D0 in H. unfold Decimal.unorm in H.
  pose proof (nzhead_head u) as HH.
  destruct (Decimal.nzhead u); try discriminate; contradiction.
Qed.

Lemma valueOf_cons c r d :
  digitOf c = Some d -> allDigits r ->
  valueOf (String c r) = d * 10 ^ Z.of_nat (String.length r) + valueOf r.
Proof.
  intros D A. unfold valueOf at 1. cbn [readDigits]. rewrite D.
  rewrite (readDigits_digits r _ _ A). cbn [fst]. lia.
Qed.

(** The decimal digits of a positive number: as many as its size asks. *)
Lemma digits_of_pos p :
  let s := NilEmpty.string_of_uint (Pos.to_uint p) in
  allDigits s /\ valueOf s = Z.pos p
  /\ 10 ^ (Z.of_nat (String.length s) - 1) <= Z.pos p
     < 10 ^ Z.of_nat (String.length s).
Proof.
  intros s.
  assert (A : allDigits s) by apply allDigits_uint.
  assert (V : valueOf s = Z.pos p).
  { unfold s. rewrite valueOf_uint. unfold Z.of_uint.
    rewrite DecimalPos.Unsigned.of_to. reflexivity. }
  split; [exact A|]. split; [exact V|]. split.
  - rewrite <- V. pose proof (to_uint_head p) as H. unfold s in *.
    destruct (Pos.to_uint p) as [|u|u|u|u|u|u|u|u|u|u]; try contradiction;
      cbn [NilEmpty.string_of_uint String.length];
      (erewrite valueOf_cons;
       [|vm_compute; reflexivity|apply allDigits_uint]);
      pose proof (valueOf_bounds _ (allDigits_uint u));
      replace (Z.of_nat (S (String.length (NilEmpty.string_of_uint u))) - 1)
        with (Z.of_nat (String.length (NilEmpty.string_of_uint u))) by lia;
      nia.
  - rewrite <- V. apply valueOf_bounds. exact A.
Qed.

Lemma toString_neg p :
  BigInt_toString (Z.neg p)
  = String "-" (NilEmpty.string_of_uint (Pos.to_uint p)).
Proof.
  unfold BigInt_toString. simpl. f_equal.
  pose proof (DecimalPos.Unsigned.to_uint_nonnil p) as NN.
  unfold NilZero.string_of_uint. destruct (Pos.to_uint p); congruence.
Qed.

Lemma uint_of_minus a b :
  NilEmpty.uint_of_string (a ++ String "-" b) = None.
Proof.
  induction a as [|c r IH]; simpl.
  - destruct (NilEmpty.uint_of_string b); reflexivity.
  - rewrite IH. reflexivity.
Qed.

Lemma pow10_le a b : a <= b -> 0 <= a -> 10 ^ a <= 10 ^ b.
Proof. intros. apply Z.pow_le_mono_r; lia. Qed.

(** A negative balance of fewer than 18 digits is padded in front of its
    sign and does not read back. *)
Lemma reload_small_negative p :
  Z.pos p < 10 ^ 17 ->
  loadBalance (StrB (formatBigIntToDecimal (Z.neg p))) = None.
Proof.
  intros B. destruct (digits_of_pos p) as (A & V & Lo & Hi).
  set (s := NilEmpty.string_of_uint (Pos.to_uint p)) in *.
  assert (Ls : (String.length s <= 17)%nat).
  { destruct (le_lt_dec (String.length s) 17) as [L|G]; auto.
    assert (10 ^ 17 <= 10 ^ (Z.of_nat (String.length s) - 1))
      by (apply pow10_le; lia).
    lia. }
  unfold loadBalance, formatBigIntToDecimal. rewrite toString_neg. fold s.
  unfold padStart. cbn [String.length].
  destruct (19 - S (String.length s))%nat as [|k] eqn:K; [lia|].
  unfold sliceButLast, sliceLast.
  rewrite length_append, length_zeros. cbn [String.length zeros append].
  replace (S k + S (String.length s) - 18)%nat with 1%nat by lia.
  cbn [take drop append replaceDot]. change (Ascii.eqb "0" ".") with false.
  cbv iota. cbn [replaceDot]. change (Ascii.eqb "." ".") with true. cbv iota.
  unfold BigInt_of_string. change (Ascii.eqb "0" "-") with false.
  change (Ascii.eqb "0" "+") with false. cbv iota.
  unfold NilZero.uint_of_string.
  change (NilEmpty.uint_of_string (String "0" (zeros k ++ String "-" s)))
    with (NilEmpty.uint_of_string ((String "0" (zeros k)) ++ String "-" s)).
  rewrite uint_of_minus. reflexivity.
Qed.

(** One of at least 18 digits is long enough to need no padding, and reads
    back. *)
Lemma reload_large_negative p :
  10 ^ 17 <= Z.pos p ->
  loadBalance (StrB (formatBigIntToDecimal (Z.neg p))) = Some (Z.neg p).
Proof.
  intros B. destruct (digits_of_pos p) as (A & V & Lo & Hi).
  set (s := NilEmpty.string_of_uint (Pos.to_uint p)) in *.
  assert (Ls : (18 <= String.length s)%nat).
  { destruct (le_lt_dec 18 (String.length s)) as [L|G]; auto.
    assert (10 ^ Z.of_nat (String.length s) <= 10 ^ 17)
      by (apply pow10_le; lia).
    lia. }
  unfold loadBalance, formatBigIntToDecimal. rewrite toString_neg. fold s.
  unfold padStart. cbn [String.length].
  replace (19 - S (String.length s))%nat with 0%nat by lia.
  cbn [zeros append]. unfold sliceButLast, sliceLast. cbn [String.length].
  destruct (S (String.length s) - 18)%nat as [|k] eqn:K; [lia|].
  cbn [take drop append replaceDot]. change (Ascii.eqb "-" ".") with false.
  cbv iota.
  change ("." ++ drop k s)%string with (String "." (drop k s)).
  rewrite replaceDot_insert by (apply allDigits_take; exact A).
  rewrite take_drop.
  unfold BigInt_of_string. change (Ascii.eqb "-" "-") with true. cbv iota.
  unfold s. 
  assert (U : NilZero.uint_of_string
                (NilEmpty.string_of_uint (Pos.to_uint p))
              = Some (Pos.to_uint p)).
  { pose proof (DecimalPos.Unsigned.to_uint_nonnil p) as NN.
    pose proof (NilZero.usu (Pos.to_uint p) NN) as U.
    unfold NilZero.string_of_uint in U.
    destruct (Pos.to_uint p); [congruence|exact U..]. }
  rewrite U. cbn [option_map]. unfold Z.of_uint.
  rewrite DecimalPos.Unsigned.of_to. reflexivity.
Qed.

(** X13. A persisted fungible balance reads back to the balance it was written
    from exactly when that balance is nonnegative or has at least 18
    digits; the negative balances in between do not read back at all. *)
Theorem reload_exactly_when (z : Z) :
  loadBalance (StrB (formatBigIntToDecimal z))
  = if (0 <=? z) || (z <=? - 10 ^ 17) then Some z else None.
Proof.
  destruct (0 <=? z) eqn:P.
  - apply Z.leb_le in P. apply reload_nonneg. exact P.
  - apply Z.leb_gt in P. destruct z as [|p|p]; try lia. cbn [orb].
    destruct (Z.neg p <=? - 10 ^ 17) eqn:Q.
    + apply Z.leb_le in Q. apply reload_large_negative. lia.
    + apply Z.leb_gt in Q. apply reload_small_negative. lia.
Qed.

(** ** What a run writes *)

(** X16. Every snapshot a run writes lists each address once and records the
    current block as the last checked one. *)
Theorem written_snapshot_wellformed (parseFloat : balance -> Q) (env : Env)
    (snap : Snapshot) :
  outcome (main parseFloat env) = Exit0 snap ->
  NoDup (map fst (holders snap))
  /\ lastCheckedBlock snap = latestBlockNumber env.
Proof.
  unfold main.
  destruct (tokenSymbol env) as [sym|]; [|discriminate].
  destruct (resolveStart env) as [[[existingHolders fromBlock] cdb]|] eqn:R;
    [|discriminate].
  destruct (detectedType env) as [ty|]; [|discriminate].
  destruct (runLedger env ty fromBlock (getCurrentBlock env)) as [fresh|];
    [|discriminate].
  cbn [outcome]. intros [= <-]. cbn [holders lastCheckedBlock].
  split; [|reflexivity].
  unfold mergeAndSort.
  eapply Permutation_NoDup.
  - apply Permutation_map. symmetry. apply sortHolders_perm.
  - apply NoDup_keys_mergeHolders. rewrite keys_formatExisting.
    eapply resolveStart_NoDup. exact R.
Qed.

Lemma written_snapshot_wellformed_witness :
  NoDup (map fst [("0xA1", StrB "5.000000000000000000")])
  /\ lastCheckedBlock
       (mkSnapshot [("0xA1", StrB "5.000000000000000000")] 150 (Some 50) "TKN")
     = latestBlockNumber resumedRun.
Proof.
  apply (written_snapshot_wellformed parseFloatExact resumedRun
           (mkSnapshot [("0xA1", StrB "5.000000000000000000")] 150
              (Some 50) "TKN")).
  vm_compute. reflexivity.
Defined.

(** X15. An address the fresh computation does not mention keeps the balance
    loaded from the previous snapshot, formatted again; one that neither
    has stays absent. *)
Theorem merge_carries_forward (parseFloat : balance -> Q)
    (contractType : ContractType) (isContract : address -> bool)
    (existingHolders : balancesOf) (fresh : list (address * amount))
    (a : address) :
  NoDup (Obj.keys existingHolders) ->
  NoDup (Obj.keys fresh) ->
  Obj.get string_dec fresh a = None ->
  Obj.get string_dec
    (mergeAndSort parseFloat contractType isContract
       (formatExisting contractType existingHolders) fresh) a
  = option_map (fun z => formatHolder contractType (BigIntV z))
      (Obj.get string_dec existingHolders a).
Proof.
  intros NE NF GF. unfold mergeAndSort.
  set (M := mergeHolders contractType isContract
              (formatExisting contractType existingHolders) fresh).
  assert (NM : NoDup (Obj.keys M)).
  { apply NoDup_keys_mergeHolders. rewrite keys_formatExisting. exact NE. }
  rewrite <- (get_perm M (sortHolders parseFloat M) a NM)
    by (symmetry; apply sortHolders_perm).
  unfold M. rewrite get_mergeHolders by exact NF. rewrite GF.
  apply get_formatExisting.
Qed.

Lemma merge_carries_forward_witness :
  Obj.get string_dec
    (mergeAndSort parseFloatExact ERC20 (fun _ => false)
       (formatExisting ERC20 [("0xA1", 10000000000000000000)])
       [("0xB2", BigIntV 5000000000000000000)]) "0xA1"
  = option_map (fun z => formatHolder ERC20 (BigIntV z))
      (Obj.get string_dec [("0xA1", 10000000000000000000)] "0xA1").
Proof.
  apply merge_carries_forward.
  - repeat constructor; simpl; tauto.
  - repeat constructor; simpl; tauto.
  - reflexivity.
Defined.

Lemma loadBalance_formatHolder contractType z :
  reloadable contractType z ->
  loadBalance (formatHolder contractType (BigIntV z)) = Some z.
Proof.
  intros R.
  assert (N : 0 <= z < 2 ^ 53 -> loadBalance (NumB (Number_of_BigInt z)) = Some z).
  { intros B. unfold Number_of_BigInt.
    replace (Z.abs z <? 2 ^ 53) with true by (symmetry; apply Z.ltb_lt; lia).
    apply reload_count. lia. }
  destruct contractType; cbn [formatHolder intOf Number reloadable] in *.
  - apply reload_nonneg. exact R.
  - apply N. exact R.
  - apply N. exact R.
Qed.

Lemma set_absent {V : Type} (o : Obj.t (K := address) (V := V)) k v :
  Obj.get string_dec o k = None ->
  Obj.set string_dec o k v = (o ++ [(k, v)])%list.
Proof.
  induction o as [|[k' v'] r IH]; simpl; auto.
  destruct (string_dec k k'); [discriminate|].
  intros G. rewrite IH by exact G. reflexivity.
Qed.

Lemma loadHolders_formatted contractType (l acc : balancesOf) :
  NoDup (Obj.keys (acc ++ l)%list) ->
  (forall a z, In (a, z) l -> reloadable contractType z) ->
  fold_left loadHolder (formatExisting contractType l) (Some acc)
  = Some (acc ++ l)%list.
Proof.
  revert acc. induction l as [|[a z] r IH]; intros acc ND R.
  - simpl. rewrite app_nil_r. reflexivity.
  - cbn [formatExisting map fold_left loadHolder fst snd].
    rewrite loadBalance_formatHolder
      by (apply (R a z); left; reflexivity).
    assert (G : Obj.get string_dec acc a = None).
    { apply get_None_notin. unfold Obj.keys in *. rewrite map_app in ND.
      apply NoDup_remove_2 in ND. intros I. apply ND.
      apply in_or_app. left. exact I. }
    rewrite set_absent by exact G.
    change (fold_left loadHolder (formatExisting contractType r)
              (Some (acc ++ [(a, z)])%list)
            = Some (acc ++ (a, z) :: r)%list).
    rewrite IH.
    + rewrite <- app_assoc. reflexivity.
    + rewrite <- app_assoc. exact ND.
    + intros a' z' I. apply (R a' z'). right. exact I.
Qed.

Lemma snapshot_holders_reload_aux contractType (existingHolders : balancesOf) :
  NoDup (Obj.keys existingHolders) ->
  (forall a z, In (a, z) existingHolders -> reloadable contractType z) ->
  loadHolders (formatExisting contractType existingHolders)
  = Some existingHolders.
Proof.
  intros ND R. unfold loadHolders.
  apply (loadHolders_formatted contractType existingHolders []); assumption.
Qed.

(** X14. Writing a holder object and loading it back gives the object again,
    in the same order, when its addresses are distinct and its balances
    are of the kind that reloads. *)
Theorem snapshot_holders_reload (contractType : ContractType)
    (existingHolders : balancesOf) :
  NoDup (Obj.keys existingHolders) ->
  (forall a z, In (a, z) existingHolders -> reloadable contractType z) ->
  loadHolders (formatExisting contractType existingHolders)
  = Some existingHolders.
Proof.
  intros ND R. apply snapshot_holders_reload_aux; assumption.
Qed.

Lemma snapshot_holders_reload_witness :
  loadHolders
    (formatExisting ERC20 [("0xA1", 10000000000000000000); ("0xB2", 7)])
  = Some [("0xA1", 10000000000000000000); ("0xB2", 7)].
Proof.
  apply snapshot_holders_reload.
  - repeat constructor; simpl; intuition discriminate.
  - intros a z [E|[E|[]]]; inversion E; subst; simpl; lia.
Defined.

(** X17. A run that finds no event in its range writes the previous holder list
    back unchanged, when that list holds balances of the kind that reloads,
    each address once, in the order the sort leaves them. *)
Theorem idle_run_keeps_holders (parseFloat : balance -> Q) (env : Env)
    (data : Snapshot) (tokenSym : string) (contractType : ContractType)
    (previous : balancesOf) (d : Z) :
  tokenSymbol env = Some tokenSym ->
  snapshotFile env = Some data ->
  holders data = formatExisting contractType previous ->
  NoDup (Obj.keys previous) ->
  (forall a z, In (a, z) previous -> reloadable contractType z) ->
  Sorted (fun x y => (parseFloat (snd y) <= parseFloat (snd x))%Q)
    (holders data) ->
  deploymentBlock data = Some d ->
  d <> 0 ->
  verifyDeploymentBlock env d = true ->
  detectedType env = Some contractType ->
  runLedger env contractType
    (Some (if refreshData env then d else lastCheckedBlock data))
    (getCurrentBlock env) = Some [] ->
  outcome (main parseFloat env)
  = Exit0 (mkSnapshot (holders data) (latestBlockNumber env) (Some d) tokenSym).
Proof.
  intros HT HS HH ND HR HSort HD NZ HV HTy HL.
  assert (RS : resolveStart env
               = Some (previous,
                       Some (if refreshData env then d else lastCheckedBlock data),
                       Some d)).
  { unfold resolveStart. rewrite HS, HH.
    rewrite (snapshot_holders_reload_aux contractType previous ND HR).
    rewrite HD, HV.
    destruct (d =? 0) eqn:E; [apply Z.eqb_eq in E; contradiction | reflexivity]. }
  unfold main. rewrite HT, RS, HTy, HL. cbn [outcome]. f_equal. f_equal.
  unfold mergeAndSort. cbn [mergeHolders fold_left]. rewrite <- HH.
  unfold sortHolders. apply stableSort_of_sorted.
  apply Sorted_StronglySorted in HSort.
  - clear HH. induction HSort as [|x r S IH F]; constructor.
    + exact IH.
    + rewrite Forall_forall in *. intros y I.
      unfold mayPrecede. apply holderBefore_false. apply F. exact I.
  - intros x y z A B. eapply Qle_trans; eauto.
Qed.

Lemma idle_run_keeps_holders_witness :
  outcome (main parseFloatExact idleRun)
  = Exit0 (mkSnapshot
             [("0xA1", StrB "10.000000000000000000");
              ("0xB2", StrB "0.000000000000000007")]
             (latestBlockNumber idleRun) (Some 50) "TKN").
Proof.
  apply (idle_run_keeps_holders parseFloatExact idleRun
           (mkSnapshot
              [("0xA1", StrB "10.000000000000000000");
               ("0xB2", StrB "0.000000000000000007")] 100 (Some 50) "TKN")
           "TKN" ERC20 [("0xA1", 10000000000000000000); ("0xB2", 7)] 50).
  - reflexivity.
  - reflexivity.
  - vm_compute. reflexivity.
  - repeat constructor; simpl; intuition discriminate.
  - intros a z [E|[E|[]]]; inversion E; subst; simpl; lia.
  - repeat constructor. vm_compute. discriminate.
  - reflexivity.
  - discriminate.
  - reflexivity.
  - reflexivity.
  - vm_compute. reflexivity.
Defined.

(** X18. Nothing is fetched and nothing is written when the token has no name
    and symbol, when the snapshot file does not load or when the contract
    type is not recognised. *)
Theorem no_fetch_without_classification (parseFloat : balance -> Q)
    (env : Env) :
  tokenSymbol env = None \/ resolveStart env = None
  \/ detectedType env = None ->
  queried (main parseFloat env) = []
  /\ forall snap, outcome (main parseFloat env) <> Exit0 snap.
Proof.
  intros H. unfold main.
  destruct (tokenSymbol env) as [sym|]; [|split; [reflexivity|discriminate]].
  destruct (resolveStart env) as [[[e f] c]|];
    [|split; [reflexivity|discriminate]].
  destruct (detectedType env) as [ty|]; [|split; [reflexivity|discriminate]].
  destruct H as [H|[H|H]]; discriminate.
Qed.

Lemma no_fetch_without_classification_witness :
  queried (main parseFloatExact debitRerun) = []
  /\ forall snap, outcome (main parseFloatExact debitRerun) <> Exit0 snap.
Proof.
  apply no_fetch_without_classification.
  right. left. vm_compute. reflexivity.
Defined.

(** X19. A batch event short of values makes the run fail after all its
    queries were sent: it exits with an error and writes nothing. *)
Theorem short_batch_aborts_run (parseFloat : balance -> Q) (env : Env)
    (tokenSym : string) (existingHolders : balancesOf)
    (fromBlock contractDeploymentBlock : option Z) :
  tokenSymbol env = Some tokenSym ->
  resolveStart env = Some (existingHolders, fromBlock, contractDeploymentBlock) ->
  detectedType env = Some ERC1155 ->
  Exists shortBatch
    (batchesOf (getPastEvents env EvTransferBatch fromBlock
                  (getCurrentBlock env))) ->
  main parseFloat env
  = mkRun (ledgerQueries ERC1155 fromBlock (getCurrentBlock env)) Exit1.
Proof.
  intros HT HR HD HS. unfold main. rewrite HT, HR, HD.
  assert (L : runLedger env ERC1155 fromBlock (getCurrentBlock env) = None).
  { cbn [runLedger]. unfold getERC1155Holders, balances1155Of.
    assert (HN : Exists namesAnId
                   (batchesOf (getPastEvents env EvTransferBatch fromBlock
                                 (getCurrentBlock env)))).
    { apply Exists_exists in HS. destruct HS as (ev & I & S).
      apply Exists_exists. exists ev.
      split; [exact I | apply shortBatch_namesAnId; exact S]. }
    rewrite (proj2 (fold_applyBatch_throws _ _) HN). reflexivity. }
  rewrite L. reflexivity.
Qed.

Lemma short_batch_aborts_run_witness :
  main parseFloatExact shortBatchRun
  = mkRun (ledgerQueries ERC1155 (Some 50) (getCurrentBlock shortBatchRun))
      Exit1.
Proof.
  apply (short_batch_aborts_run parseFloatExact shortBatchRun "MT" []
           (Some 50) (Some 50)).
  - reflexivity.
  - vm_compute. reflexivity.
  - reflexivity.
  - vm_compute. left. unfold shortBatch. simpl. lia.
Defined.

(** ** The console report (takeSnapshot.js:319-330 and 453-461) *)

(** *** What [commify] makes of a formatted balance *)

Lemma isDigit_allDigits c r : allDigits (String c r) -> isDigit c = true.
Proof. intros [D _]. unfold isDigit. destruct (digitOf c); congruence. Qed.

Lemma spanDigits_all s : allDigits s -> spanDigits s = (s, EmptyString).
Proof.
  induction s as [|c r IH]; intros A; [reflexivity|].
  cbn [spanDigits]. rewrite (isDigit_allDigits c r A).
  destruct A as [_ A]. rewrite (IH A). reflexivity.
Qed.

Lemma spanDigits_stop s c t :
  allDigits s -> isDigit c = false ->
  spanDigits (s ++ String c t) = (s, String c t).
Proof.
  intros A N. induction s as [|c' r IH].
  - cbn [append spanDigits]. rewrite N. reflexivity.
  - cbn [append spanDigits]. rewrite (isDigit_allDigits c' r A).
    destruct A as [_ A]. rewrite (IH A). reflexivity.
Qed.

Lemma uint_of_digits s :
  allDigits s -> exists d, NilEmpty.uint_of_string s = Some d.
Proof.
  induction s as [|c r IH]; intros A.
  - exists Decimal.Nil. reflexivity.
  - destruct A as [D A]. destruct (IH A) as [d E].
    cbn [NilEmpty.uint_of_string]. rewrite E.
    unfold digitOf in D.
    destruct c as [[|] [|] [|] [|] [|] [|] [|] [|]];
      try (exfalso; apply D; reflexivity); eexists; reflexivity.
Qed.

(** [BigInt] reads a nonempty string of digits as the number it writes. *)
Lemma BigInt_of_digits s :
  allDigits s -> s <> EmptyString -> BigInt_of_string s = Some (valueOf s).
Proof.
  intros A N. destruct (uint_of_digits s A) as [d E].
  pose proof (NilEmpty.sus s d E) as S.
  destruct s as [|c r]; [congruence|].
  unfold BigInt_of_string. destruct A as [D A].
  destruct (digit_not_sign c D) as [-> ->].
  unfold NilZero.uint_of_string. rewrite E. cbn [option_map].
  rewrite <- S, valueOf_uint. reflexivity.
Qed.

Lemma digitOf_zero c : digitOf c = Some 0 -> c = "0"%char.
Proof.
  destruct c as [[|] [|] [|] [|] [|] [|] [|] [|]]; vm_compute;
    intros H; try discriminate; reflexivity.
Qed.

Lemma strip_zero_value s :
  allDigits s -> valueOf s = 0 -> stripTrailingZeros s = EmptyString.
Proof.
  induction s as [|c r IH]; intros A V; [reflexivity|].
  destruct A as [D A]. destruct (digitOf c) as [d|] eqn:E; [|congruence].
  rewrite (valueOf_cons c r d E A) in V.
  pose proof (digitOf_range c d E). pose proof (valueOf_bounds r A).
  assert (d = 0) by nia. subst d.
  assert (valueOf r = 0) by lia.
  cbn [stripTrailingZeros]. rewrite (IH A) by assumption.
  rewrite (digitOf_zero c E). reflexivity.
Qed.

Lemma commify_parts integerPart decimalPart :
  allDigits integerPart -> integerPart <> EmptyString ->
  allDigits decimalPart -> decimalPart <> EmptyString ->
  commify (integerPart ++ "." ++ decimalPart)
  = Some (groupThousands (BigInt_toString (valueOf integerPart)) ++ "."
          ++ stripTrailingZeros decimalPart).
Proof.
  intros Ai Ni Ad Nd. unfold commify, matchNumber.
  destruct integerPart as [|c r] eqn:EI; [congruence|]. rewrite <- EI in *.
  assert (H : (integerPart ++ "." ++ decimalPart)%string
              = String c (r ++ String "." decimalPart))
    by (rewrite EI; reflexivity).
  rewrite H.
  assert (Dc : digitOf c <> None) by (rewrite EI in Ai; apply Ai).
  destruct (digit_not_sign c Dc) as [M _]. rewrite M.
  rewrite <- H.
  change (integerPart ++ "." ++ decimalPart)%string
    with (integerPart ++ String "." decimalPart)%string.
  rewrite (spanDigits_stop integerPart "." decimalPart Ai) by reflexivity.
  change (Ascii.eqb "." ".") with true. cbv iota.
  rewrite (spanDigits_all decimalPart Ad).
  replace (String.eqb integerPart EmptyString) with false
    by (symmetry; apply String.eqb_neq; exact Ni).
  replace (String.eqb decimalPart EmptyString) with false
    by (symmetry; apply String.eqb_neq; exact Nd).
  cbn [andb]. rewrite (BigInt_of_digits integerPart Ai Ni). reflexivity.
Qed.

Lemma length_nonempty s n : String.length s = S n -> s <> EmptyString.
Proof. destruct s; simpl; congruence. Qed.

(** X21. For a nonnegative balance the report prints the whole tokens grouped
    by thousands, a point, and the 18 fraction digits without their
    trailing zeros. *)
Theorem commify_formatted (z : Z) :
  0 <= z ->
  exists decimalPart,
    allDigits decimalPart /\ String.length decimalPart = 18%nat
    /\ valueOf decimalPart = z mod 10 ^ 18
    /\ commify (formatBigIntToDecimal z)
       = Some (groupThousands (BigInt_toString (z / 10 ^ 18)) ++ "."
               ++ stripTrailingZeros decimalPart).
Proof.
  intros L. destruct (format_parts z L) as (ip & dp & F & Ai & Ni & Ad & Ld & Vi & Vd).
  exists dp. repeat split; auto.
  rewrite F, commify_parts; auto; [|apply (length_nonempty dp 17 Ld)].
  rewrite Vi. reflexivity.
Qed.

Lemma commify_formatted_witness :
  exists decimalPart,
    allDigits decimalPart /\ String.length decimalPart = 18%nat
    /\ valueOf decimalPart = 1234500000000000000000 mod 10 ^ 18
    /\ commify (formatBigIntToDecimal 1234500000000000000000)
       = Some (groupThousands (BigInt_toString (1234500000000000000000 / 10 ^ 18))
               ++ "." ++ stripTrailingZeros decimalPart).
Proof. apply commify_formatted. lia. Defined.

(** X22. A whole number of tokens is printed with nothing after the point. *)
Theorem commify_whole_tokens (k : Z) :
  0 <= k ->
  commify (formatBigIntToDecimal (k * 10 ^ 18))
  = Some (groupThousands (BigInt_toString k) ++ ".").
Proof.
  intros L.
  destruct (format_parts (k * 10 ^ 18)) as (ip & dp & F & Ai & Ni & Ad & Ld & Vi & Vd);
    [lia|].
  rewrite F, commify_parts; auto; [|apply (length_nonempty dp 17 Ld)].
  rewrite Vi, Z.div_mul by lia.
  rewrite Z.mod_mul in Vd by lia.
  rewrite (strip_zero_value dp Ad Vd). reflexivity.
Qed.

Lemma commify_whole_tokens_witness :
  commify (formatBigIntToDecimal (5 * 10 ^ 18))
  = Some (groupThousands (BigInt_toString 5) ++ ".").
Proof. apply commify_whole_tokens. lia. Defined.

Lemma format_small_negative p :
  Z.pos p < 10 ^ 17 ->
  exists k,
    formatBigIntToDecimal (Z.neg p)
    = String "0" (String "."
        (zeros k ++ String "-" (NilEmpty.string_of_uint (Pos.to_uint p)))).
Proof.
  intros B. destruct (digits_of_pos p) as (A & V & Lo & Hi).
  set (s := NilEmpty.string_of_uint (Pos.to_uint p)) in *.
  assert (Ls : (String.length s <= 17)%nat).
  { destruct (le_lt_dec (String.length s) 17) as [L|G]; auto.
    assert (10 ^ 17 <= 10 ^ (Z.of_nat (String.length s) - 1))
      by (apply pow10_le; lia).
    lia. }
  unfold formatBigIntToDecimal. rewrite toString_neg. fold s.
  unfold padStart. cbn [String.length].
  destruct (19 - S (String.length s))%nat as [|k] eqn:K; [lia|].
  exists k. unfold sliceButLast, sliceLast.
  rewrite length_append, length_zeros. cbn [String.length zeros append].
  replace (S k + S (String.length s) - 18)%nat with 1%nat by lia.
  reflexivity.
Qed.

Lemma format_large_negative p :
  10 ^ 17 <= Z.pos p ->
  exists k,
    (k + 18 = String.length (NilEmpty.string_of_uint (Pos.to_uint p)))%nat
    /\ formatBigIntToDecimal (Z.neg p)
       = String "-"
           (take k (NilEmpty.string_of_uint (Pos.to_uint p))
            ++ String "." (drop k (NilEmpty.string_of_uint (Pos.to_uint p)))).
Proof.
  intros B. destruct (digits_of_pos p) as (A & V & Lo & Hi).
  set (s := NilEmpty.string_of_uint (Pos.to_uint p)) in *.
  assert (Ls : (18 <= String.length s)%nat).
  { destruct (le_lt_dec 18 (String.length s)) as [L|G]; auto.
    assert (10 ^ Z.of_nat (String.length s) <= 10 ^ 17)
      by (apply pow10_le; lia).
    lia. }
  unfold formatBigIntToDecimal. rewrite toString_neg. fold s.
  unfold padStart. cbn [String.length].
  replace (19 - S (String.length s))%nat with 0%nat by lia.
  cbn [zeros append]. unfold sliceButLast, sliceLast. cbn [String.length].
  destruct (S (String.length s) - 18)%nat as [|k] eqn:K; [lia|].
  exists k. split; [lia|]. reflexivity.
Qed.

Lemma commify_rejects (z : Z) :
  commify (formatBigIntToDecimal z) = None <-> - 10 ^ 17 < z < 0.
Proof.
  destruct (Z_le_dec 0 z) as [P|N].
  - destruct (format_parts z P) as (ip & dp & F & Ai & Ni & Ad & Ld & _ & _).
    rewrite F, commify_parts; auto; [|apply (length_nonempty dp 17 Ld)].
    split; [discriminate | lia].
  - destruct z as [|p|p]; try lia.
    destruct (Z_le_dec (10 ^ 17) (Z.pos p)) as [B|S].
    + destruct (format_large_negative p B) as (k & Lk & F).
      set (s := NilEmpty.string_of_uint (Pos.to_uint p)) in *.
      assert (A : allDigits s) by apply allDigits_uint.
      split; [|lia]. intros C. exfalso. revert C. rewrite F.
      unfold commify, matchNumber. change (Ascii.eqb "-" "-") with true.
      cbv iota.
      rewrite (spanDigits_stop (take k s) "." (drop k s))
        by (apply allDigits_take || reflexivity; exact A).
      change (Ascii.eqb "." ".") with true. cbv iota.
      rewrite (spanDigits_all (drop k s)) by (apply allDigits_drop; exact A).
      assert (Nd : drop k s <> EmptyString).
      { apply (length_nonempty _ 17). rewrite length_drop. lia. }
      replace (String.eqb (drop k s) EmptyString) with false
        by (symmetry; apply String.eqb_neq; exact Nd).
      rewrite andb_false_r.
      destruct (String.eqb (take k s) EmptyString) eqn:E; [discriminate|].
      rewrite BigInt_of_digits;
        [discriminate | apply allDigits_take; exact A
        | apply String.eqb_neq; exact E].
    + destruct (format_small_negative p) as (k & F); [lia|].
      split; [lia|]. intros _. rewrite F.
      unfold commify, matchNumber. change (Ascii.eqb "0" "-") with false.
      cbv iota.
      change (spanDigits (String "0" (String "."
                (zeros k ++ String "-" (NilEmpty.string_of_uint (Pos.to_uint p))))))
        with ("0", String "."
                (zeros k ++ String "-" (NilEmpty.string_of_uint (Pos.to_uint p)))).
      cbv iota beta. change (Ascii.eqb "." ".") with true. cbv iota.
      rewrite (spanDigits_stop (zeros k) "-") by (apply allDigits_zeros || reflexivity).
      reflexivity.
Qed.

(** X23. The report accepts a formatted balance exactly when the snapshot
    loader does: [commify] throws on the negative balances of fewer than 18
    digits and on no other. *)
Theorem commify_rejects_exactly_when (z : Z) :
  commify (formatBigIntToDecimal z) = None <-> - 10 ^ 17 < z < 0.
Proof. apply commify_rejects. Qed.

(** What [commify] makes of the decimal numeral of an integer. *)
Lemma commify_integer (n : Z) :
  commify (BigInt_toString n)
  = Some ((if n <? 0 then "-" else "")
          ++ groupThousands (BigInt_toString (Z.abs n)) ++ ".0").
Proof.
  assert (P : forall m, 0 <= m ->
            allDigits (BigInt_toString m)
            /\ BigInt_toString m <> EmptyString
            /\ BigInt_of_string (BigInt_toString m) = Some m).
  { intros m L. destruct (toString_nonneg m L) as (d & ND & S & V).
    assert (A : allDigits (BigInt_toString m)) by (rewrite S; apply allDigits_uint).
    assert (NE : BigInt_toString m <> EmptyString).
    { rewrite S. destruct d; simpl; congruence. }
    repeat split; auto.
    rewrite BigInt_of_digits by assumption. rewrite S, valueOf_uint, V.
    reflexivity. }
  destruct (P (Z.abs n)) as (A & NE & R); [lia|].
  destruct (n <? 0) eqn:S.
  - apply Z.ltb_lt in S. destruct n as [|p|p]; try lia.
    change (Z.abs (Z.neg p)) with (Z.pos p) in *.
    assert (T : BigInt_toString (Z.neg p) = String "-" (BigInt_toString (Z.pos p))).
    { rewrite toString_neg. f_equal.
      unfold BigInt_toString. simpl.
      pose proof (DecimalPos.Unsigned.to_uint_nonnil p) as NN.
      unfold NilZero.string_of_uint. destruct (Pos.to_uint p); congruence. }
    rewrite T. unfold commify, matchNumber.
    change (Ascii.eqb "-" "-") with true. cbv iota.
    rewrite (spanDigits_all _ A). cbn [spanDigits].
    replace (String.eqb (BigInt_toString (Z.pos p)) EmptyString) with false
      by (symmetry; apply String.eqb_neq; exact NE).
    cbn [andb]. rewrite R. reflexivity.
  - apply Z.ltb_ge in S. rewrite Z.abs_eq in * by exact S.
    unfold commify, matchNumber.
    destruct (BigInt_toString n) as [|c r] eqn:E; [congruence|].
    destruct (digit_not_sign c (proj1 A)) as [-> _].
    rewrite (spanDigits_all _ A). cbn [spanDigits].
    replace (String.eqb (String c r) EmptyString) with false by reflexivity.
    cbn [andb]. rewrite R, E. reflexivity.
Qed.

(** X24. A count below 2^53 in absolute value, where a Number prints the
    digits of the integer it holds, is always printed by the report: its
    digits grouped by thousands, after its sign, and ".0". *)
Theorem commify_count (n : Z) :
  Z.abs n < 2 ^ 53 ->
  commifyBalance (NumB n)
  = Some ((if n <? 0 then "-" else "")
          ++ groupThousands (BigInt_toString (Z.abs n)) ++ ".0").
Proof.
  intros B. unfold commifyBalance, Number_toString.
  replace (Z.abs n <? 10 ^ 21) with true by (symmetry; apply Z.ltb_lt; lia).
  rewrite shortestRoundTrip_exact by exact B. apply commify_integer.
Qed.

Lemma commify_count_witness :
  commifyBalance (NumB 1234567)
  = Some ((if 1234567 <? 0 then "-" else "")
          ++ groupThousands (BigInt_toString (Z.abs 1234567)) ++ ".0").
Proof. apply commify_count. vm_compute. reflexivity. Defined.

(** From 2^53 on the digits printed are those of the Number's shortest
    numeral: the total 2^56. *)
Lemma commify_count_above_2_53 :
  commifyBalance (NumB (2 ^ 56)) = Some "72,057,594,037,927,940.0".
Proof. vm_compute. reflexivity. Qed.

(** *** Grouping by thousands *)

Lemma digit_not_comma c : digitOf c <> None -> Ascii.eqb c "," = false.
Proof.
  intros D. destruct (Ascii.eqb_spec c ","); auto. subst. contradiction D.
  reflexivity.
Qed.

Lemma third_step k :
  ((if negb (k =? 0) && (k mod 3 =? 0) then 1 else 0) + (k - 1) / 3 = k / 3)%nat.
Proof.
  pose proof (Nat.div_mod_eq k 3). pose proof (Nat.mod_upper_bound k 3).
  pose proof (Nat.div_mod_eq (k - 1) 3).
  pose proof (Nat.mod_upper_bound (k - 1) 3).
  destruct (k =? 0)%nat eqn:Z; cbn [negb andb].
  - apply Nat.eqb_eq in Z. subst. reflexivity.
  - apply Nat.eqb_neq in Z.
    destruct (k mod 3 =? 0)%nat eqn:M.
    + apply Nat.eqb_eq in M. lia.
    + apply Nat.eqb_neq in M. lia.
Qed.

(** Grouping only adds commas: taking them out gives the digits back, and
    there is one comma for every full group of three digits after the
    first digit. *)
Theorem groupThousands_commas (digits : string) :
  allDigits digits ->
  removeCommas (groupThousands digits) = digits
  /\ String.length (groupThousands digits)
     = (String.length digits + (String.length digits - 1) / 3)%nat.
Proof.
  induction digits as [|c r IH]; intros A; [split; reflexivity|].
  destruct A as [D A]. destruct (IH A) as [R L].
  cbn [groupThousands removeCommas String.length].
  rewrite (digit_not_comma c D).
  pose proof (third_step (String.length r)) as T.
  destruct (negb (String.length r =? 0)%nat
            && (String.length r mod 3 =? 0)%nat);
    cbn [removeCommas String.length];
    change (Ascii.eqb "," ",") with true; cbv iota; rewrite R, L;
    (split; [reflexivity|]);
    replace (S (String.length r) - 1)%nat with (String.length r) by lia; lia.
Qed.

Lemma groupThousands_commas_witness :
  removeCommas (groupThousands "1234567") = "1234567"
  /\ String.length (groupThousands "1234567")
     = (String.length "1234567" + (String.length "1234567" - 1) / 3)%nat.
Proof.
  apply groupThousands_commas. repeat split; discriminate.
Defined.

(** *** The counters and the exit status *)

Lemma mergeCounters_from holders n (seen : list address) :
  NoDup (seen ++ Obj.keys holders)%list ->
  fold_left countEntry holders (n, seen)
  = ((n + List.length holders)%nat, (seen ++ Obj.keys holders)%list).
Proof.
  revert n seen. induction holders as [|[h v] r IH]; intros n seen ND.
  - simpl. rewrite app_nil_r. f_equal. lia.
  - cbn [fold_left]. unfold countEntry at 2. unfold addToSet. cbn [fst snd].
    cbn [Obj.keys map fst] in ND.
    destruct (in_dec string_dec h seen) as [I|NI].
    + exfalso. apply NoDup_remove_2 in ND. apply ND.
      apply in_or_app. left. exact I.
    + rewrite IH.
      * cbn [List.length Obj.keys map fst]. rewrite <- app_assoc.
        f_equal. lia.
      * rewrite <- app_assoc. exact ND.
Qed.

(** X20. The two figures of the report, "Tx count since last snapshot" and
    "Unique traders since last snapshot", are always the same number: the
    number of addresses of the fresh computation. *)
Theorem counters_agree (env : Env) (contractType : ContractType)
    (fromBlock : option Z) (currentBlock : Z)
    (holders : list (address * amount)) :
  runLedger env contractType fromBlock currentBlock = Some holders ->
  fst (mergeCounters holders) = List.length holders
  /\ List.length (snd (mergeCounters holders)) = List.length holders.
Proof.
  intros L. apply runLedger_NoDup in L. unfold mergeCounters.
  rewrite mergeCounters_from by exact L. cbn [fst snd app].
  unfold Obj.keys. rewrite length_map. split; reflexivity.
Qed.

Lemma counters_agree_witness :
  fst (mergeCounters [("0xA1", BigIntV (-5)); ("0xB2", BigIntV 5)])
  = List.length [("0xA1", BigIntV (-5)); ("0xB2", BigIntV 5)]
  /\ List.length (snd (mergeCounters [("0xA1", BigIntV (-5)); ("0xB2", BigIntV 5)]))
     = List.length [("0xA1", BigIntV (-5)); ("0xB2", BigIntV 5)].
Proof.
  apply (counters_agree debitRun ERC20 (Some 50) 150).
  vm_compute. reflexivity.
Defined.

Lemma in_set {V : Type} (o : Obj.t (K := address) (V := V)) k v a b :
  In (a, b) (Obj.set string_dec o k v) -> (a, b) = (k, v) \/ In (a, b) o.
Proof.
  induction o as [|[k' v'] r IH]; simpl.
  - intros [E|[]]. left. symmetry. exact E.
  - destruct (string_dec k k'); simpl; intros [E|I]; auto.
    destruct (IH I); auto.
Qed.

Lemma in_delete {V : Type} (o : Obj.t (K := address) (V := V)) k a b :
  In (a, b) (Obj.delete string_dec o k) -> In (a, b) o.
Proof.
  induction o as [|[k' v'] r IH]; simpl; auto.
  destruct (string_dec k k'); simpl; intuition.
Qed.

Lemma in_mergeHolders contractType isC fresh existingHolders a b :
  In (a, b) (mergeHolders contractType isC existingHolders fresh) ->
  In (a, b) existingHolders \/ exists v, b = formatHolder contractType v.
Proof.
  revert existingHolders.
  induction fresh as [|[h v] r IH]; intros existingHolders I; [left; exact I|].
  change (mergeHolders contractType isC existingHolders ((h, v) :: r))
    with (mergeHolders contractType isC
            (mergeHolder contractType isC existingHolders (h, v)) r) in I.
  destruct (IH _ I) as [J|J]; [|right; exact J].
  unfold mergeHolder in J.
  destruct (strictNeqZeroBig v && negb (isC h)).
  - apply in_set in J. destruct J as [E|J]; [|left; exact J].
    right. exists v. congruence.
  - left. eapply in_delete. exact J.
Qed.

Lemma in_firstn {A : Type} n (l : list A) x : In x (firstn n l) -> In x l.
Proof.
  revert l. induction n; intros [|y r]; simpl; intuition.
Qed.

Lemma reportLines_None tokenSym top :
  reportLines tokenSym top = None
  <-> exists a b, In (a, b) top /\ commifyBalance b = None.
Proof.
  induction top as [|[h b] r IH]; cbn [reportLines].
  - split; [discriminate | intros (a & b & [] & _)].
  - destruct (commifyBalance b) as [t|] eqn:C.
    + destruct (reportLines tokenSym r) as [ls|]; cbn [option_map].
      * split; [discriminate|]. intros (a & b' & [E|I] & N).
        -- inversion E; subst. congruence.
        -- assert (X : Some ls = None) by (apply IH; eauto). discriminate.
      * split; [|reflexivity]. intros _.
        destruct (proj1 IH eq_refl) as (a & b' & I & N).
        exists a, b'. split; [right; exact I | exact N].
    + split; [|reflexivity]. intros _. exists h, b. split; [left; reflexivity | exact C].
Qed.

(** X25. A run on an ERC-20 contract that wrote its snapshot still ends with
    status 1 exactly when one of the ten holders at the head of the list
    has a negative balance of fewer than 18 digits: the report fails on it
    after the file is written. *)
Theorem written_but_failed (parseFloat : balance -> Q) (env : Env)
    (snap : Snapshot) :
  detectedType env = Some ERC20 ->
  outcome (main parseFloat env) = Exit0 snap ->
  (exitStatus (main parseFloat env) = 1
   <-> exists a z,
         In (a, StrB (formatBigIntToDecimal z)) (topHolders (holders snap))
         /\ - 10 ^ 17 < z < 0).
Proof.
  intros HTy HO.
  assert (F : forall a b, In (a, b) (holders snap) ->
                exists z, b = StrB (formatBigIntToDecimal z)).
  { revert HO. unfold main.
    destruct (tokenSymbol env) as [sym|]; [|discriminate].
    destruct (resolveStart env) as [[[ex fb] cdb]|]; [|discriminate].
    rewrite HTy.
    destruct (runLedger env ERC20 fb (getCurrentBlock env)) as [fresh|];
      [|discriminate].
    cbn [outcome]. intros [= <-]. cbn [holders]. intros a b I.
    unfold mergeAndSort in I.
    apply (Permutation_in _ (sortHolders_perm parseFloat _)) in I.
    apply in_mergeHolders in I. destruct I as [I|[v ->]].
    - unfold formatExisting in I. apply in_map_iff in I.
      destruct I as ([a' z] & E & _). inversion E; subst.
      exists z. reflexivity.
    - exists (intOf v). reflexivity. }
  unfold exitStatus. rewrite HO.
  destruct (reportLines (symbol snap) (topHolders (holders snap))) as [ls|] eqn:R.
  - split; [discriminate|]. intros (a & z & I & B). exfalso.
    assert (X : Some ls = None).
    { rewrite <- R. apply reportLines_None.
      exists a, (StrB (formatBigIntToDecimal z)). split; [exact I|].
      apply commify_rejects. exact B. }
    discriminate.
  - split; [|reflexivity]. intros _.
    apply reportLines_None in R. destruct R as (a & b & I & N).
    destruct (F a b) as [z ->].
    { unfold topHolders in I. eapply in_firstn. exact I. }
    exists a, z. split; [exact I|]. apply commify_rejects. exact N.
Qed.

Lemma written_but_failed_witness :
  exitStatus (main parseFloatExact debitRun) = 1
  <-> exists a z,
        In (a, StrB (formatBigIntToDecimal z))
          (topHolders
             (holders
                (mkSnapshot
                   [("0xB2", StrB "0.000000000000000005");
                    ("0xA1", StrB "0.0000000000000000-5")] 150 (Some 50) "TKN")))
        /\ - 10 ^ 17 < z < 0.
Proof.
  apply (written_but_failed parseFloatExact debitRun).
  - reflexivity.
  - vm_compute. reflexivity.
Defined.

(** * The pets tools: [hexToAscii] (tallySankoPets.js:104-113,
    getSankoPetMetadata.js:80-89) *)

Lemma keepPrintable_id s : allPrintable s -> keepPrintable s = s.
Proof.
  induction s as [|c r IH]; [reflexivity|].
  intros [P A]. cbn [keepPrintable]. rewrite P, (IH A). reflexivity.
Qed.

Lemma fromCharCode_printable code :
  printableCode code = true ->
  printableCode (Z.of_N (N_of_ascii (fromCharCode code))) = true.
Proof.
  intros P. unfold fromCharCode.
  assert (B : 31 < code < 127).
  { unfold printableCode in P. apply andb_true_iff in P.
    rewrite !Z.ltb_lt in P. exact P. }
  rewrite N_ascii_embedding by lia. rewrite Z2N.id by lia. exact P.
Qed.

Lemma decodePairs_printable_from n :
  forall s, (String.length s <= n)%nat -> allPrintable (decodePairs s).
Proof.
  induction n as [|n IH]; intros s L.
  - destruct s; [exact I | simpl in L; lia].
  - destruct s as [|c1 [|c2 r]]; try exact I.
    cbn [decodePairs]. simpl in L.
    assert (A : allPrintable (decodePairs r)) by (apply IH; lia).
    destruct (pairCode c1 c2) as [code|]; [|exact A].
    destruct (printableCode code) eqn:P; [|exact A].
    split; [apply fromCharCode_printable; exact P | exact A].
Qed.

(** X26. [hexToAscii] returns printable ASCII only, and its last [replace]
    never has anything to remove: the loop already kept nothing else. *)
Theorem hexToAscii_printable (hex : string) :
  allPrintable (hexToAscii hex)
  /\ hexToAscii hex = decodePairs (drop 2 hex).
Proof.
  assert (A : allPrintable (decodePairs (drop 2 hex)))
    by (apply (decodePairs_printable_from (String.length (drop 2 hex))); lia).
  unfold hexToAscii. rewrite (keepPrintable_id _ A). split; [exact A | reflexivity].
Qed.

Lemma pairCode_hexChar c :
  pairCode (hexChar (Z.of_N (N_of_ascii c) / 16))
    (hexChar (Z.of_N (N_of_ascii c) mod 16))
  = Some (Z.of_N (N_of_ascii c)).
Proof.
  destruct c as [[|] [|] [|] [|] [|] [|] [|] [|]]; vm_compute; reflexivity.
Qed.

Lemma fromCharCode_code c : fromCharCode (Z.of_N (N_of_ascii c)) = c.
Proof.
  unfold fromCharCode. rewrite N2Z.id. apply ascii_N_embedding.
Qed.

Lemma decodePairs_hexEncode s : decodePairs (hexEncode s) = keepPrintable s.
Proof.
  induction s as [|c r IH]; [reflexivity|].
  cbn [hexEncode decodePairs keepPrintable]. rewrite pairCode_hexChar.
  rewrite fromCharCode_code, IH. reflexivity.
Qed.

(** X27. Decoding the hexadecimal form of a byte string, after any two leading
    characters (the "0x"), keeps its printable characters in order and
    drops the other bytes; a printable string comes back whole. *)
Theorem hexToAscii_hexEncode (p1 p2 : ascii) (s : string) :
  hexToAscii (String p1 (String p2 (hexEncode s))) = keepPrintable s
  /\ (allPrintable s ->
      hexToAscii (String p1 (String p2 (hexEncode s))) = s).
Proof.
  assert (E : hexToAscii (String p1 (String p2 (hexEncode s))) = keepPrintable s).
  { unfold hexToAscii. cbn [drop]. rewrite decodePairs_hexEncode.
    apply keepPrintable_id.
    clear. induction s as [|c r IH]; [exact I|].
    cbn [keepPrintable].
    destruct (printableCode (Z.of_N (N_of_ascii c))) eqn:P; [|exact IH].
    split; [exact P | exact IH]. }
  split; [exact E|]. intros A. rewrite E. apply keepPrintable_id. exact A.
Qed.

(** * The airdrop sender: the batches of [airdropERC721] and
    [airdropERC1155] (cacheToCSV.js:376-413)

    The loop [for (let i = 0; i < recipients.length; i += batchSize)] with
    [recipients.slice(i, i + batchSize)]; the batch size is a whole number
    from 1 to 2000 (the option's check), 500 when not given. *)

Lemma sendBatches_step {A : Type} (b : positive) (l : list A) i :
  (i < List.length l)%nat ->
  sendBatches b l i
  = firstn (Pos.to_nat b) (skipn i l) :: sendBatches b l (i + Pos.to_nat b).
Proof.
  intros L. rewrite sendBatches_equation_1.
  destruct (lt_dec i (List.length l)); [reflexivity | contradiction].
Qed.

Lemma sendBatches_done {A : Type} (b : positive) (l : list A) i :
  (List.length l <= i)%nat -> sendBatches b l i = [].
Proof.
  intros L. rewrite sendBatches_equation_1.
  destruct (lt_dec i (List.length l)); [lia | reflexivity].
Qed.

Lemma skipn_add {A : Type} (l : list A) i b :
  skipn (i + b) l = skipn b (skipn i l).
Proof.
  revert l. induction i as [|i IH]; intros l; [reflexivity|].
  destruct l as [|x r]; simpl; [destruct b; reflexivity | apply IH].
Qed.

Lemma sendBatches_spec {A : Type} (b : positive) (l : list A) :
  forall n i, (List.length l - i <= n)%nat ->
    List.concat (sendBatches b l i) = skipn i l
    /\ Forall (fun batch => (1 <= List.length batch <= Pos.to_nat b)%nat)
         (sendBatches b l i).
Proof.
  pose proof (Pos2Nat.is_pos b) as Pb.
  induction n as [|n IH]; intros i L.
  - rewrite sendBatches_done by lia. rewrite skipn_all2 by lia.
    split; [reflexivity | constructor].
  - destruct (lt_dec i (List.length l)) as [Lt|Ge].
    + rewrite sendBatches_step by exact Lt.
      destruct (IH (i + Pos.to_nat b)%nat) as [C F]; [lia|].
      split.
      * cbn [List.concat]. rewrite C, skipn_add. apply firstn_skipn.
      * constructor; [|exact F].
        rewrite length_firstn, length_skipn. lia.
    + rewrite sendBatches_done by lia. rewrite skipn_all2 by lia.
      split; [reflexivity | constructor].
Qed.


(** ** More on the single-owner ledger *)

Lemma sumValues_countOwner h owner :
  sumValues (countOwner h owner) = sumValues h + 1.
Proof.
  pose proof (sumValues_bump (fun x => x + 1) h owner) as H.
  change (sumValues (countOwner h owner)
          = sumValues h - orZero (sget h owner) + (orZero (sget h owner) + 1)) in H.
  rewrite H. lia.
Qed.

(** X9. The counts of the single-owner ledger add up to the number of tokens
    that have an owner at the end of the replay. *)
Theorem getERC721Holders_total (transferEvents : list TransferArgs) :
  sumValues (getERC721Holders transferEvents)
  = Z.of_nat (List.length (tokenOwnersOf transferEvents)).
Proof.
  unfold getERC721Holders.
  assert (G : forall owners (h : balancesOf),
             sumValues (fold_left countOwner owners h)
             = sumValues h + Z.of_nat (List.length owners)).
  { induction owners as [|o r IH]; intros h; [simpl; lia|].
    cbn [fold_left List.length]. rewrite IH, sumValues_countOwner. lia. }
  rewrite G, length_map.
  rewrite (Permutation_length (ownEntries_perm (tokenOwnersOf transferEvents))).
  unfold sumValues. simpl. lia.
Qed.

(** One more event: the token it names goes to the recipient, or is left
    without owner when the recipient is the zero address and the sender is
    not; whether the sender owned the token is not looked at.  The other
    tokens keep their owner. *)
Theorem tokenOwnersOf_last_event (transferEvents : list TransferArgs)
    (event : TransferArgs) (id : Z) :
  Obj.get Z.eq_dec (tokenOwnersOf (transferEvents ++ [event])) id
  = if Z.eq_dec id (t_value event)
    then if isZeroAddress (t_to event)
         then if isZeroAddress (t_from event)
              then Obj.get Z.eq_dec (tokenOwnersOf transferEvents) id
              else None
         else Some (t_to event)
    else Obj.get Z.eq_dec (tokenOwnersOf transferEvents) id.
Proof.
  unfold tokenOwnersOf. rewrite fold_left_app. cbn [fold_left].
  set (t := fold_left applyOwnership transferEvents []).
  unfold applyOwnership.
  destruct (Z.eq_dec id (t_value event)) as [->|N].
  - destruct (isZeroAddress (t_to event)), (isZeroAddress (t_from event));
      rewrite ?get_set_eq, ?get_delete_eq; reflexivity.
  - destruct (isZeroAddress (t_to event)), (isZeroAddress (t_from event));
      rewrite ?get_set_neq, ?get_delete_neq by exact N; reflexivity.
Qed.

